(** * DREKAVAC: the oversampled distortion chain, embedded and verified

    The development follows [Source/PluginProcessor.h] (the DSP stages) and
    [PluginProcessor.cpp] (parameter layout, [prepareToPlay], [processBlock],
    preset loading).  Of the two processor headers in the repository this
    is the one [PluginProcessor.cpp] is written against: it has the
    compressor member and [Distortion::setCutoffSliderValue].

    Numbers.  The C++ code computes on [float]/[double].  Here a sample is a
    value of [fp]: either an exact real number or one of the IEEE special
    values (+infinity, -infinity, NaN).  Arithmetic on finite values is exact
    (no rounding, no overflow, a single zero); the special values follow
    IEEE 754 and Annex F of the C standard, so that an operation outside its
    domain ([log] of a negative number, [0 * inf], ...) yields NaN in the
    model exactly where it does in the program.  Where a result depends
    on a finite intermediate value staying finite, the theorem bounds the
    values involved; where it depends on rounding (the percent displays)
    the rounding is part of the model.

    JUCE.  The IIR filters, their coefficient designers, the oversampler and
    the value-tree / XML / file classes belong to the JUCE library, not to
    this repository.  They are an interface ([Class Juce]); every theorem
    holds for all implementations of that interface. *)

From Stdlib Require Import Reals Lra Lia ZArith List String Bool Sorted.
Import ListNotations.

Local Open Scope R_scope.

(* ================================================================== *)
(** ** Sample arithmetic *)

Inductive fp : Type :=
| Fin (r : R)
| PInf
| NInf
| NaN.

Declare Scope fp_scope.
Delimit Scope fp_scope with fp.
Bind Scope fp_scope with fp.

Definition is_finite (x : fp) : Prop :=
  match x with Fin _ => True | _ => False end.

(** The infinity that carries the sign of [r]; [0 * inf] is NaN. *)
Definition inf_of_sign (r : R) : fp :=
  if Rlt_dec 0 r then PInf else if Rlt_dec r 0 then NInf else NaN.

Definition fneg (x : fp) : fp :=
  match x with
  | Fin r => Fin (- r)
  | PInf => NInf
  | NInf => PInf
  | NaN => NaN
  end.

Definition fadd (x y : fp) : fp :=
  match x, y with
  | NaN, _ | _, NaN => NaN
  | Fin a, Fin b => Fin (a + b)
  | PInf, NInf | NInf, PInf => NaN
  | PInf, _ | _, PInf => PInf
  | NInf, _ | _, NInf => NInf
  end.

Definition fsub (x y : fp) : fp := fadd x (fneg y).

Definition fmul (x y : fp) : fp :=
  match x, y with
  | NaN, _ | _, NaN => NaN
  | Fin a, Fin b => Fin (a * b)
  | PInf, Fin r | Fin r, PInf => inf_of_sign r
  | NInf, Fin r | Fin r, NInf => inf_of_sign (- r)
  | PInf, PInf | NInf, NInf => PInf
  | PInf, NInf | NInf, PInf => NInf
  end.

Definition fdiv (x y : fp) : fp :=
  match x, y with
  | NaN, _ | _, NaN => NaN
  | Fin a, Fin b => if Req_dec_T b 0 then inf_of_sign a else Fin (a / b)
  | Fin _, PInf | Fin _, NInf => Fin 0
  | PInf, Fin b => if Rlt_dec b 0 then NInf else PInf
  | NInf, Fin b => if Rlt_dec b 0 then PInf else NInf
  | _, _ => NaN
  end.

(** The C comparison [x < y]: false as soon as an operand is NaN. *)
Definition flt (x y : fp) : bool :=
  match x, y with
  | NaN, _ | _, NaN => false
  | Fin a, Fin b => if Rlt_dec a b then true else false
  | NInf, NInf => false
  | NInf, _ => true
  | _, NInf => false
  | PInf, _ => false
  | _, PInf => true
  end.

Notation "x + y" := (fadd x y) : fp_scope.
Notation "x - y" := (fsub x y) : fp_scope.
Notation "x * y" := (fmul x y) : fp_scope.
Notation "x / y" := (fdiv x y) : fp_scope.
Notation "- x" := (fneg x) : fp_scope.

(** Order on finite values, as a proposition. *)
Definition fp_lt (x y : fp) : Prop := flt x y = true.

Definition in_range (lo hi : R) (x : fp) : Prop :=
  match x with Fin r => lo <= r <= hi | _ => False end.

(* ------------------------------------------------------------------ *)
(** *** The <cmath> functions used by the stages (C standard, Annex F) *)

Definition fabs (x : fp) : fp :=
  match x with
  | Fin r => Fin (Rabs r)
  | PInf | NInf => PInf
  | NaN => NaN
  end.

Definition ftanh (x : fp) : fp :=
  match x with
  | Fin r => Fin (tanh r)
  | PInf => Fin 1
  | NInf => Fin (-1)
  | NaN => NaN
  end.

Definition fsin (x : fp) : fp :=
  match x with
  | Fin r => Fin (sin r)
  | _ => NaN
  end.

Definition fsqrt (x : fp) : fp :=
  match x with
  | Fin r => if Rlt_dec r 0 then NaN else Fin (sqrt r)
  | PInf => PInf
  | NInf | NaN => NaN
  end.

Definition fexp (x : fp) : fp :=
  match x with
  | Fin r => Fin (exp r)
  | PInf => PInf
  | NInf => Fin 0
  | NaN => NaN
  end.

(** [log]: NaN below zero, -infinity at zero. *)
Definition flog (x : fp) : fp :=
  match x with
  | Fin r => if Rlt_dec r 0 then NaN
             else if Req_dec_T r 0 then NInf else Fin (ln r)
  | PInf => PInf
  | NInf | NaN => NaN
  end.

Definition flog10 (x : fp) : fp :=
  match x with
  | Fin r => if Rlt_dec r 0 then NaN
             else if Req_dec_T r 0 then NInf else Fin (ln r / ln 10)
  | PInf => PInf
  | NInf | NaN => NaN
  end.

(** Is the real [y] an integer, and is that integer odd? *)
Definition is_integer (y : R) : bool :=
  if Req_dec_T y (IZR (Int_part y)) then true else false.

Definition is_odd_integer (y : R) : bool :=
  is_integer y && Z.odd (Int_part y).

(** [pow] on a finite base and a finite exponent. *)
Definition pow_fin (x y : R) : fp :=
  if Req_dec_T y 0 then Fin 1
  else if Rlt_dec 0 x then Fin (Rpower x y)
  else if Req_dec_T x 0 then
    (if Rlt_dec 0 y then Fin 0 else PInf)
  else if is_integer y then
    (if Z.odd (Int_part y) then Fin (- Rpower (- x) y)
     else Fin (Rpower (- x) y))
  else NaN.

Definition fpow (x y : fp) : fp :=
  match x, y with
  | Fin a, Fin b => pow_fin a b
  | NaN, Fin b => if Req_dec_T b 0 then Fin 1 else NaN
  | Fin a, NaN => if Req_dec_T a 1 then Fin 1 else NaN
  | NaN, _ | _, NaN => NaN
  | Fin a, PInf =>
      if Req_dec_T (Rabs a) 1 then Fin 1
      else if Rlt_dec (Rabs a) 1 then Fin 0 else PInf
  | Fin a, NInf =>
      if Req_dec_T (Rabs a) 1 then Fin 1
      else if Rlt_dec (Rabs a) 1 then PInf else Fin 0
  | PInf, Fin b =>
      if Req_dec_T b 0 then Fin 1 else if Rlt_dec b 0 then Fin 0 else PInf
  | NInf, Fin b =>
      if Req_dec_T b 0 then Fin 1
      else if Rlt_dec b 0 then Fin 0
      else if is_odd_integer b then NInf else PInf
  | PInf, PInf | NInf, PInf => PInf
  | PInf, NInf | NInf, NInf => Fin 0
  end.

(** The three library functions below are not defined in the repository;
    they are written as the C++ standard library and JUCE's
    [juce_MathsFunctions.h] define them.

    [std::max (a, b)] is [(a < b) ? b : a]. *)
Definition fmax (a b : fp) : fp := if flt a b then b else a.

(** [juce::jlimit (lo, hi, v)]:
    [v < lo ? lo : (hi < v ? hi : v)]. *)
Definition jlimit (lo hi v : fp) : fp :=
  if flt v lo then lo else if flt hi v then hi else v.

(** [juce::jmap (value0To1, targetMin, targetMax)]:
    [targetMin + value0To1 * (targetMax - targetMin)]. *)
Definition jmap (v lo hi : fp) : fp := (lo + v * (hi - lo))%fp.

Definition pi_f : fp := Fin PI.
Definition halfPi : fp := Fin (PI / 2).

(* ================================================================== *)
(** ** The JUCE interface *)

(** [juce::dsp::ProcessSpec]. *)
Record ProcessSpec : Type := {
  spec_sampleRate : fp;
  spec_maximumBlockSize : nat;
  spec_numChannels : nat
}.

(** A block of audio: one list of samples per channel. *)
Definition AudioBlock : Type := list (list fp).

Class Juce : Type := {
  (** [juce::dsp::IIR::Coefficients<float>] and the delay elements of a
      [juce::dsp::IIR::Filter<float>]. *)
  Coefficients : Type;
  FilterMemory : Type;
  makeLowPass : fp -> fp -> fp -> Coefficients;
  makeLowShelf : fp -> fp -> fp -> fp -> Coefficients;
  makeHighShelf : fp -> fp -> fp -> fp -> Coefficients;
  memory_reset : Coefficients -> FilterMemory -> FilterMemory;
  memory_prepare : ProcessSpec -> Coefficients -> FilterMemory -> FilterMemory;
  memory_step : Coefficients -> FilterMemory -> fp -> fp * FilterMemory;
  (** [juce::dsp::Oversampling<float>]. *)
  Oversampling : Type;
  os_reset : Oversampling -> Oversampling;
  os_initProcessing : nat -> Oversampling -> Oversampling;
  os_processSamplesUp : Oversampling -> AudioBlock -> AudioBlock * Oversampling;
  os_processSamplesDown :
    Oversampling -> AudioBlock -> AudioBlock -> AudioBlock * Oversampling;
  os_getOversamplingFactor : Oversampling -> fp;
  (** [juce::ValueTree], [juce::XmlElement], [juce::File],
      [juce::AudioProcessorValueTreeState]. *)
  ValueTree : Type;
  XmlElement : Type;
  File : Type;
  Binary : Type;
  APVTS : Type;
  valueTree_getType : ValueTree -> string;
  valueTree_fromXml : XmlElement -> ValueTree;
  xml_hasTagName : XmlElement -> string -> bool;
  xml_getStringAttribute : XmlElement -> string -> string -> string;
  file_existsAsFile : File -> bool;
  xmlDocument_parse : File -> option XmlElement;
  getXmlFromBinary : Binary -> option XmlElement;
  apvts_state : APVTS -> ValueTree;
  apvts_getRawParameterValue : APVTS -> string -> fp;
  apvts_replaceState : ValueTree -> APVTS -> APVTS
}.

(** [juce::dsp::IIR::Filter<float>]: a public [coefficients] member and the
    private delay elements. *)
Module Filter.
Section WithJuce.
Context {J : Juce}.

Record t : Type := {
  coefficients : Coefficients;
  memory : FilterMemory
}.

Definition setCoefficients (c : Coefficients) (f : t) : t :=
  {| coefficients := c; memory := memory f |}.

Definition reset (f : t) : t :=
  {| coefficients := coefficients f;
     memory := memory_reset (coefficients f) (memory f) |}.

Definition prepare (s : ProcessSpec) (f : t) : t :=
  {| coefficients := coefficients f;
     memory := memory_prepare s (coefficients f) (memory f) |}.

Definition processSample (f : t) (x : fp) : fp * t :=
  let (y, m) := memory_step (coefficients f) (memory f) x in
  (y, {| coefficients := coefficients f; memory := m |}).
End WithJuce.
End Filter.

(* ================================================================== *)
(** ** The DSP stages ([Source/PluginProcessor.h]) *)

Module ToneProcessor.
Section WithJuce.
Context {J : Juce}.

Record t : Type := {
  lowFilter : Filter.t;
  highFilter : Filter.t;
  fs : fp;
  balance : fp;
  modulatedPivot : fp;
  modulatedQ : fp
}.

Definition pivotFreq : fp := Fin 1000.
Definition q : fp := Fin (707 / 1000).

Definition updateCoefficients (s : t) : t :=
  let lowShelf :=
    makeLowShelf (fs s) (modulatedPivot s) (modulatedQ s)
      (Fin 1 + (Fin 1 - balance s) * Fin (3 / 2))%fp in
  let highShelf :=
    makeHighShelf (fs s) (modulatedPivot s) (modulatedQ s)
      (Fin 1 + balance s * Fin (3 / 2))%fp in
  {| lowFilter := Filter.setCoefficients lowShelf (lowFilter s);
     highFilter := Filter.setCoefficients highShelf (highFilter s);
     fs := fs s; balance := balance s;
     modulatedPivot := modulatedPivot s; modulatedQ := modulatedQ s |}.

Definition reset (s : t) : t :=
  {| lowFilter := Filter.reset (lowFilter s);
     highFilter := Filter.reset (highFilter s);
     fs := fs s; balance := balance s;
     modulatedPivot := modulatedPivot s; modulatedQ := modulatedQ s |}.

Definition prepare (sampleRate : fp) (s : t) : t :=
  reset (updateCoefficients
    {| lowFilter := lowFilter s; highFilter := highFilter s;
       fs := sampleRate; balance := balance s;
       modulatedPivot := modulatedPivot s; modulatedQ := modulatedQ s |}).

Definition setParameters (toneSlider driveSlider : fp) (s : t) : t :=
  updateCoefficients
    {| lowFilter := lowFilter s; highFilter := highFilter s;
       fs := fs s;
       balance := jlimit (Fin 0) (Fin 1) toneSlider;
       modulatedPivot := (pivotFreq + driveSlider * Fin 100)%fp;
       modulatedQ := (q + driveSlider * Fin (5 / 100))%fp |}.

Definition processSample (s : t) (input : fp) : fp * t :=
  let (low, lf) := Filter.processSample (lowFilter s) input in
  let (high, hf) := Filter.processSample (highFilter s) input in
  (jmap (balance s) low high,
   {| lowFilter := lf; highFilter := hf;
      fs := fs s; balance := balance s;
      modulatedPivot := modulatedPivot s; modulatedQ := modulatedQ s |}).
End WithJuce.
End ToneProcessor.

Module Overdrive.
Record t : Type := {
  drive : fp;
  tone : fp;
  prevY : fp
}.

(** The constructor [Overdrive()]. *)
Definition init : t :=
  {| drive := Fin 1; tone := Fin (1 / 2); prevY := Fin 0 |}.

Definition setDrive (d : fp) (o : t) : t :=
  {| drive := d; tone := tone o; prevY := prevY o |}.

Definition setTone (tn : fp) (o : t) : t :=
  {| drive := drive o; tone := jlimit (Fin 0) (Fin 1) tn; prevY := prevY o |}.

Definition processSample (o : t) (input sampleRate : fp) : fp * t :=
  let x := (input * (Fin 1 + fpow (drive o) (Fin 2)))%fp in
  let y := ftanh x in
  let cutoff := (Fin 200 + tone o * Fin 8000)%fp in
  let RC := (Fin 1 / (Fin 2 * pi_f * cutoff))%fp in
  let dt := (Fin 1 / sampleRate)%fp in
  let alpha := (dt / (RC + dt))%fp in
  let y' := (prevY o + alpha * (y - prevY o))%fp in
  (y', {| drive := drive o; tone := tone o; prevY := y' |}).
End Overdrive.

(** The logarithmic cutoff mapping shared by [Distortion] and by the
    "cutoff" parameter's display function. *)
Definition minHz : fp := Fin 100.
Definition maxHz : fp := Fin 8000.
Definition exponent : fp := Fin (7 / 10).

Definition cutoffHz (value : fp) : fp :=
  (minHz * fpow (maxHz / minHz) (fpow value exponent))%fp.

Module Distortion.
Section WithJuce.
Context {J : Juce}.

Record t : Type := {
  preGain : fp;
  sliderValue : fp;
  cutoff : fp;
  fs : fp;
  postPrev : fp;
  filters : Filter.t * Filter.t   (* std::array<Filter, 2> *)
}.

Definition Q : fp := Fin (707 / 1000).

Definition updateFilter (d : t) : t :=
  let coeffs := makeLowPass (fs d) (cutoff d) Q in
  {| preGain := preGain d; sliderValue := sliderValue d;
     cutoff := cutoff d; fs := fs d; postPrev := postPrev d;
     filters := (Filter.setCoefficients coeffs (fst (filters d)),
                 Filter.setCoefficients coeffs (snd (filters d))) |}.

Definition setPreGain (g : fp) (d : t) : t :=
  {| preGain := g; sliderValue := sliderValue d;
     cutoff := cutoff d; fs := fs d; postPrev := postPrev d;
     filters := filters d |}.

Definition setCutoffSliderValue (value : fp) (d : t) : t :=
  let sv := jlimit (Fin 0) (Fin 1) value in
  updateFilter
    {| preGain := preGain d; sliderValue := sv;
       cutoff := cutoffHz sv; fs := fs d; postPrev := postPrev d;
       filters := filters d |}.

Definition prepare (sampleRate : fp) (d : t) : t :=
  let spec := {| spec_sampleRate := sampleRate;
                 spec_maximumBlockSize := 512;
                 spec_numChannels := 1 |} in
  let f0 := Filter.prepare spec (Filter.reset (fst (filters d))) in
  let f1 := Filter.prepare spec (Filter.reset (snd (filters d))) in
  updateFilter
    {| preGain := preGain d; sliderValue := sliderValue d;
       cutoff := cutoff d; fs := sampleRate; postPrev := postPrev d;
       filters := (f0, f1) |}.

Definition postCutoff : fp := Fin 10000.

Definition processSample (d : t) (input : fp) : fp * t :=
  let y0 := ftanh (input * preGain d)%fp in
  let (y1, f0) := Filter.processSample (fst (filters d)) y0 in
  let (y2, f1) := Filter.processSample (snd (filters d)) y1 in
  let alpha := fexp (- Fin 2 * pi_f * postCutoff / fs d)%fp in
  let y3 := (postPrev d + (Fin 1 - alpha) * (y2 - postPrev d))%fp in
  (ftanh y3,
   {| preGain := preGain d; sliderValue := sliderValue d;
      cutoff := cutoff d; fs := fs d; postPrev := y3;
      filters := (f0, f1) |}).
End WithJuce.
End Distortion.

Module Wavefolder.
Record t : Type := { depth : fp }.

Definition init : t := {| depth := Fin 0 |}.

Definition setDepth (d : fp) (_ : t) : t :=
  {| depth := jlimit (Fin 0) (Fin 1) (fpow d (Fin (3 / 2))) |}.

Definition processSample (s : t) (input : fp) : fp :=
  let scaled := (input * (Fin 1 + depth s * Fin 9))%fp in
  let folded := fsin (scaled * halfPi)%fp in
  let folded := ftanh folded in
  (input * (Fin 1 - depth s) + folded * depth s)%fp.
End Wavefolder.

Module SimpleCompressor.
Record t : Type := {
  threshold : fp;
  ratio : fp;
  knee : fp;
  attackTime : fp;
  releaseTime : fp;
  sampleRate : fp;
  envelope : fp;
  attackCoeff : fp;
  releaseCoeff : fp
}.

Definition dbToLinear (db : fp) : fp := fpow (Fin 10) (db / Fin 20)%fp.

Definition linearToDb (lin : fp) : fp :=
  (Fin 20 * flog10 (fmax lin (Fin (/ 10 ^ 20))))%fp.

Definition prepare (fs : fp) (c : t) : t :=
  {| threshold := threshold c; ratio := ratio c; knee := knee c;
     attackTime := attackTime c; releaseTime := releaseTime c;
     sampleRate := fs;
     envelope := Fin 0;
     attackCoeff := fexp (- Fin 1 / (attackTime c * fs))%fp;
     releaseCoeff := fexp (- Fin 1 / (releaseTime c * fs))%fp |}.

Definition processSample (c : t) (input : fp) : fp * t :=
  let level := fabs input in
  let env :=
    if flt (envelope c) level
    then (attackCoeff c * (envelope c - level) + level)%fp
    else (releaseCoeff c * (envelope c - level) + level)%fp in
  let levelDb := linearToDb env in
  let lowerKnee := (threshold c - knee c / Fin 2)%fp in
  let upperKnee := (threshold c + knee c / Fin 2)%fp in
  let compressed :=
    (threshold c + (levelDb - threshold c) / ratio c - levelDb)%fp in
  let gainDb :=
    if flt upperKnee levelDb then compressed
    else if flt lowerKnee levelDb then
      let x := ((levelDb - lowerKnee) / knee c)%fp in
      let smooth := (x * x * (Fin 3 - Fin 2 * x))%fp in
      (smooth * compressed)%fp
    else Fin 0 in
  let gain := dbToLinear gainDb in
  ((input * gain)%fp,
   {| threshold := threshold c; ratio := ratio c; knee := knee c;
      attackTime := attackTime c; releaseTime := releaseTime c;
      sampleRate := sampleRate c;
      envelope := env;
      attackCoeff := attackCoeff c; releaseCoeff := releaseCoeff c |}).
End SimpleCompressor.

(* ================================================================== *)
(** ** Parameter layout ([createParameterLayout]) *)

(** The "cutoff" parameter's text-to-value function, applied to the number
    [hz] that [getFloatValue] read from the typed text. *)
Definition cutoffTextToValue (hz : fp) : fp :=
  let norm := fpow (flog (hz / minHz) / flog (maxHz / minHz))%fp
                   (Fin 1 / exponent)%fp in
  jlimit (Fin 0) (Fin 1) norm.

(** The eight values read at the top of [processBlock]. *)
Record Controls : Type := {
  c_drive : fp;
  c_tone : fp;
  c_distortion : fp;
  c_cutoff : fp;
  c_foldDepth : fp;
  c_flavor : fp;
  c_outputGain : fp;
  c_drywet : fp
}.

(** The ranges declared by [createParameterLayout] (section 3 of the
    specification): the value each control would have if it were clamped to
    its declared range. *)
Definition clampToDeclaredRange (c : Controls) : Controls :=
  {| c_drive := jlimit (Fin 0) (Fin 10) (c_drive c);
     c_tone := jlimit (Fin 0) (Fin 1) (c_tone c);
     c_distortion := jlimit (Fin 0) (Fin 10) (c_distortion c);
     c_cutoff := jlimit (Fin 0) (Fin 1) (c_cutoff c);
     c_foldDepth := jlimit (Fin 0) (Fin 1) (c_foldDepth c);
     c_flavor := jlimit (Fin 0) (Fin 1) (c_flavor c);
     c_outputGain := jlimit (Fin 0) (Fin 2) (c_outputGain c);
     c_drywet := jlimit (Fin 0) (Fin 1) (c_drywet c) |}.

(* ================================================================== *)
(** ** The processor ([PluginProcessor.cpp]) *)

(** The input gain applied before the overdrive in [processBlock]. *)
Definition preGain : fp := Fin (6 / 10).

(** The flavor blend of the two parallel branches. *)
Definition flavorBlend (flavor odSample distSample foldSample : fp) : fp :=
  let f := fsin (flavor * halfPi)%fp in
  (odSample + distSample * (Fin 1 - f) + foldSample * f)%fp.

(** Dry/wet blend, output gain and final soft clip. *)
Definition mixOutput (drywet outputGain inputSample filtered : fp) : fp :=
  let w := fsqrt drywet in
  let mixed := (inputSample * (Fin 1 - w) + filtered * w)%fp in
  let mixed := (mixed * outputGain)%fp in
  ftanh mixed.

(** The sample the overdrive stage produces for one input sample of the
    oversampled block. *)
Definition overdriveSample (o : Overdrive.t) (inputSample rate : fp)
  : fp * Overdrive.t :=
  let scaledInput := (inputSample * preGain)%fp in
  Overdrive.processSample o scaledInput rate.

Section Processor.
Context {J : Juce}.

Record Processor : Type := {
  parameters : APVTS;
  overdrive : Overdrive.t;
  dist : Distortion.t;
  fold : Wavefolder.t;
  toneProcessor : ToneProcessor.t;
  simpleComp : SimpleCompressor.t;
  currentPresetName : string;
  oversampler : Oversampling;
  (** State of the [juce::AudioProcessor] base class. *)
  getSampleRate : fp;
  getTotalNumInputChannels : nat;
  getTotalNumOutputChannels : nat
}.

(** The four stages the per-sample loop runs through. *)
Definition withStages (p : Processor) (o : Overdrive.t) (d : Distortion.t)
    (w : Wavefolder.t) (tp : ToneProcessor.t) : Processor :=
  {| parameters := parameters p;
     overdrive := o; dist := d; fold := w; toneProcessor := tp;
     simpleComp := simpleComp p;
     currentPresetName := currentPresetName p;
     oversampler := oversampler p;
     getSampleRate := getSampleRate p;
     getTotalNumInputChannels := getTotalNumInputChannels p;
     getTotalNumOutputChannels := getTotalNumOutputChannels p |}.

Definition withOversampler (p : Processor) (os : Oversampling) : Processor :=
  {| parameters := parameters p;
     overdrive := overdrive p; dist := dist p; fold := fold p;
     toneProcessor := toneProcessor p;
     simpleComp := simpleComp p;
     currentPresetName := currentPresetName p;
     oversampler := os;
     getSampleRate := getSampleRate p;
     getTotalNumInputChannels := getTotalNumInputChannels p;
     getTotalNumOutputChannels := getTotalNumOutputChannels p |}.

Definition withSimpleComp (p : Processor) (c : SimpleCompressor.t)
  : Processor :=
  {| parameters := parameters p;
     overdrive := overdrive p; dist := dist p; fold := fold p;
     toneProcessor := toneProcessor p;
     simpleComp := c;
     currentPresetName := currentPresetName p;
     oversampler := oversampler p;
     getSampleRate := getSampleRate p;
     getTotalNumInputChannels := getTotalNumInputChannels p;
     getTotalNumOutputChannels := getTotalNumOutputChannels p |}.

Definition prepareToPlay (sampleRate : fp) (samplesPerBlock : nat)
    (p : Processor) : Processor :=
  let os := os_initProcessing samplesPerBlock (os_reset (oversampler p)) in
  let tp := ToneProcessor.prepare sampleRate (toneProcessor p) in
  let d := Distortion.prepare (getSampleRate p) (dist p) in
  let o := Overdrive.setTone (Fin (1 / 2))
             (Overdrive.setDrive (Fin 1) (overdrive p)) in
  let d := Distortion.setCutoffSliderValue (Fin (1 / 2))
             (Distortion.setPreGain (Fin 1) d) in
  let w := Wavefolder.setDepth (Fin 0) (fold p) in
  let c := SimpleCompressor.prepare (getSampleRate p) (simpleComp p) in
  withSimpleComp (withStages (withOversampler p os) o d w tp) c.

Definition readControls (a : APVTS) : Controls :=
  {| c_drive := apvts_getRawParameterValue a "drive";
     c_tone := apvts_getRawParameterValue a "tone";
     c_distortion := apvts_getRawParameterValue a "distortion";
     c_cutoff := apvts_getRawParameterValue a "cutoff";
     c_foldDepth := apvts_getRawParameterValue a "fold";
     c_flavor := apvts_getRawParameterValue a "flavor";
     c_outputGain := apvts_getRawParameterValue a "output";
     c_drywet := apvts_getRawParameterValue a "drywet" |}.

(** "Update DSP modules": the setter calls made once per block. *)
Definition updateModules (c : Controls) (p : Processor) : Processor :=
  let o := Overdrive.setTone (c_tone c)
             (Overdrive.setDrive (c_drive c) (overdrive p)) in
  let tp := ToneProcessor.setParameters (c_tone c) (c_drive c)
              (toneProcessor p) in
  let d := Distortion.setCutoffSliderValue (c_cutoff c)
             (Distortion.setPreGain (fmax (Fin 0) (c_distortion c))
                (dist p)) in
  let w := Wavefolder.setDepth (c_foldDepth c) (fold p) in
  withStages p o d w tp.

(** The processed ("wet") part of the loop body: overdrive, the two
    parallel branches, the flavor blend and the tone filter. *)
Definition wetPath (c : Controls) (rate : fp) (p : Processor)
    (inputSample : fp) : fp * Processor :=
  let (odSample, o) := overdriveSample (overdrive p) inputSample rate in
  let (distSample, d) := Distortion.processSample (dist p) odSample in
  let foldSample := Wavefolder.processSample (fold p) odSample in
  let parallel := flavorBlend (c_flavor c) odSample distSample foldSample in
  let (filtered, tp) :=
    ToneProcessor.processSample (toneProcessor p) parallel in
  (filtered, withStages p o d (fold p) tp).

(** The body of the inner loop of [processBlock]: one sample in, one
    sample out, the stages' state updated. *)
Definition processOne (c : Controls) (rate : fp) (p : Processor)
    (inputSample : fp) : fp * Processor :=
  let (filtered, p') := wetPath c rate p inputSample in
  (mixOutput (c_drywet c) (c_outputGain c) inputSample filtered, p').

(** The inner loop over the samples of one channel. *)
Fixpoint processSamples (c : Controls) (rate : fp) (p : Processor)
    (channelData : list fp) : list fp * Processor :=
  match channelData with
  | [] => ([], p)
  | x :: rest =>
      let (y, p1) := processOne c rate p x in
      let (ys, p2) := processSamples c rate p1 rest in
      (y :: ys, p2)
  end.

(** The outer loop over the first [n] channels; the stages are shared by
    all channels. *)
Fixpoint processChannels (c : Controls) (rate : fp) (n : nat)
    (p : Processor) (block : AudioBlock) : AudioBlock * Processor :=
  match n, block with
  | S n', ch :: rest =>
      let (ch', p1) := processSamples c rate p ch in
      let (rest', p2) := processChannels c rate n' p1 rest in
      (ch' :: rest', p2)
  | _, _ => (block, p)
  end.

(** [buffer.clear (i, 0, numSamples)] for [lo <= i < hi]. *)
Fixpoint clearChannels (i lo hi : nat) (buffer : AudioBlock) : AudioBlock :=
  match buffer with
  | [] => []
  | ch :: rest =>
      (if (lo <=? i)%nat && (i <? hi)%nat then map (fun _ => Fin 0) ch
       else ch) :: clearChannels (S i) lo hi rest
  end.

Definition processBlock (p : Processor) (buffer : AudioBlock)
  : AudioBlock * Processor :=
  let buffer := clearChannels 0 (getTotalNumInputChannels p)
                  (getTotalNumOutputChannels p) buffer in
  let (oversampledBlock, os) :=
    os_processSamplesUp (oversampler p) buffer in
  let p := withOversampler p os in
  let c := readControls (parameters p) in
  let p := updateModules c p in
  let oversampledRate :=
    (getSampleRate p * os_getOversamplingFactor (oversampler p))%fp in
  let (processed, p) :=
    processChannels c oversampledRate (getTotalNumInputChannels p) p
      oversampledBlock in
  let (buffer, os) :=
    os_processSamplesDown (oversampler p) processed buffer in
  (buffer, withOversampler p os).

Definition replaceParameters (p : Processor) (a : APVTS) (name : string)
  : Processor :=
  {| parameters := a;
     overdrive := overdrive p; dist := dist p; fold := fold p;
     toneProcessor := toneProcessor p;
     simpleComp := simpleComp p;
     currentPresetName := name;
     oversampler := oversampler p;
     getSampleRate := getSampleRate p;
     getTotalNumInputChannels := getTotalNumInputChannels p;
     getTotalNumOutputChannels := getTotalNumOutputChannels p |}.

Definition setStateInformation (data : Binary) (p : Processor) : Processor :=
  match getXmlFromBinary data with
  | Some xml =>
      replaceParameters p
        (apvts_replaceState (valueTree_fromXml xml) (parameters p))
        (currentPresetName p)
  | None => p
  end.

Definition loadPresetFromFile (file : File) (p : Processor) : Processor :=
  if negb (file_existsAsFile file) then p
  else
    match xmlDocument_parse file with
    | Some xml =>
        if xml_hasTagName xml (valueTree_getType (apvts_state (parameters p)))
        then
          replaceParameters p
            (apvts_replaceState (valueTree_fromXml xml) (parameters p))
            (xml_getStringAttribute xml "presetName" "Unknown")
        else p
    | None => p
    end.

(** The three ways loading a preset file can fail. *)
Definition loadFails (file : File) (p : Processor) : Prop :=
  file_existsAsFile file = false
  \/ xmlDocument_parse file = None
  \/ exists xml, xmlDocument_parse file = Some xml
                 /\ xml_hasTagName xml
                      (valueTree_getType (apvts_state (parameters p)))
                    = false.
End Processor.

(* ================================================================== *)
(** ** The specification's wording of the pipeline *)

Module Spec.
Section WithJuce.
Context {J : Juce}.

(** Section 4.7, steps 1 to 8, for one sample.  [odInput] is what the
    first stage is given for an input sample: the specification says the
    input sample itself. *)
Definition perSample (odInput : fp -> fp) (c : Controls) (rate : fp)
    (p : Processor) (inputSample : fp) : fp :=
  let od := fst (Overdrive.processSample (overdrive p)
                   (odInput inputSample) rate) in
  let dst := fst (Distortion.processSample (dist p) od) in
  let fld := Wavefolder.processSample (fold p) od in
  let f := fsin (c_flavor c * halfPi)%fp in
  let parallel := (od + dst * (Fin 1 - f) + fld * f)%fp in
  let filtered :=
    fst (ToneProcessor.processSample (toneProcessor p) parallel) in
  let w := fsqrt (c_drywet c) in
  let mixed := (inputSample * (Fin 1 - w) + filtered * w)%fp in
  let mixed := (mixed * c_outputGain c)%fp in
  ftanh mixed.



End WithJuce.
End Spec.

(* ================================================================== *)
(** ** A small implementation of the JUCE interface

    Filters that pass their input through, an oversampler that hands the
    block over unchanged, a value tree that is just its type name, and a
    file that is either absent or holds an optional root tag.  It is used
    to run the processor on concrete inputs. *)

Definition wireJuce : Juce := {|
  Coefficients := unit;
  FilterMemory := unit;
  makeLowPass := fun _ _ _ => tt;
  makeLowShelf := fun _ _ _ _ => tt;
  makeHighShelf := fun _ _ _ _ => tt;
  memory_reset := fun _ m => m;
  memory_prepare := fun _ _ m => m;
  memory_step := fun _ m x => (x, m);
  Oversampling := unit;
  os_reset := fun os => os;
  os_initProcessing := fun _ os => os;
  os_processSamplesUp := fun os b => (b, os);
  os_processSamplesDown := fun os processed _ => (processed, os);
  os_getOversamplingFactor := fun _ => Fin 4;
  ValueTree := string;
  XmlElement := string;
  File := option (option string);
  Binary := option string;
  APVTS := string;
  valueTree_getType := fun v => v;
  valueTree_fromXml := fun x => x;
  xml_hasTagName := fun x n => String.eqb x n;
  xml_getStringAttribute := fun _ _ d => d;
  file_existsAsFile := fun f => match f with Some _ => true | None => false end;
  xmlDocument_parse := fun f => match f with Some x => x | None => None end;
  getXmlFromBinary := fun b => b;
  apvts_state := fun a => a;
  apvts_getRawParameterValue := fun _ _ => Fin (1 / 2);
  apvts_replaceState := fun v _ => v
|}.

Definition wireFilter : @Filter.t wireJuce :=
  {| Filter.coefficients := tt : @Coefficients wireJuce;
     Filter.memory := tt : @FilterMemory wireJuce |}.

(** A freshly constructed processor over [wireJuce], at 44.1 kHz, stereo. *)
Definition wireProcessor : @Processor wireJuce :=
  {| parameters := "DREKAVAC_PARAMETERS"%string : @APVTS wireJuce;
     overdrive := Overdrive.init;
     dist := {| Distortion.preGain := Fin 1;
                Distortion.sliderValue := Fin (2 / 10);
                Distortion.cutoff := Fin 1000;
                Distortion.fs := Fin 44100;
                Distortion.postPrev := Fin 0;
                Distortion.filters := (wireFilter, wireFilter) |};
     fold := Wavefolder.init;
     toneProcessor :=
       {| ToneProcessor.lowFilter := wireFilter;
          ToneProcessor.highFilter := wireFilter;
          ToneProcessor.fs := Fin 44100;
          ToneProcessor.balance := Fin (1 / 2);
          ToneProcessor.modulatedPivot := Fin 1000;
          ToneProcessor.modulatedQ := Fin (707 / 1000) |};
     simpleComp :=
       {| SimpleCompressor.threshold := Fin (-3);
          SimpleCompressor.ratio := Fin 2;
          SimpleCompressor.knee := Fin 2;
          SimpleCompressor.attackTime := Fin (5 / 1000);
          SimpleCompressor.releaseTime := Fin (5 / 100);
          SimpleCompressor.sampleRate := Fin 44100;
          SimpleCompressor.envelope := Fin 0;
          SimpleCompressor.attackCoeff := Fin 0;
          SimpleCompressor.releaseCoeff := Fin 0 |};
     currentPresetName := "Default";
     oversampler := tt : @Oversampling wireJuce;
     getSampleRate := Fin 44100;
     getTotalNumInputChannels := 2;
     getTotalNumOutputChannels := 2 |}.

(** A second implementation, in which every filter is replaced by its
    gain at frequency zero: a low-pass and a high shelf pass a constant
    signal unchanged, a low shelf multiplies it by its gain factor.  Here
    the two shelves of the tone filter answer differently. *)
Definition dcJuce : Juce := {|
  Coefficients := fp;
  FilterMemory := unit;
  makeLowPass := fun _ _ _ => Fin 1;
  makeLowShelf := fun _ _ _ gainFactor => gainFactor;
  makeHighShelf := fun _ _ _ _ => Fin 1;
  memory_reset := fun _ m => m;
  memory_prepare := fun _ _ m => m;
  memory_step := fun c m x => ((x * c)%fp, m);
  Oversampling := unit;
  os_reset := fun os => os;
  os_initProcessing := fun _ os => os;
  os_processSamplesUp := fun os b => (b, os);
  os_processSamplesDown := fun os processed _ => (processed, os);
  os_getOversamplingFactor := fun _ => Fin 4;
  ValueTree := string;
  XmlElement := string;
  File := option (option string);
  Binary := option string;
  APVTS := string;
  valueTree_getType := fun v => v;
  valueTree_fromXml := fun x => x;
  xml_hasTagName := fun x n => String.eqb x n;
  xml_getStringAttribute := fun _ _ d => d;
  file_existsAsFile := fun f => match f with Some _ => true | None => false end;
  xmlDocument_parse := fun f => match f with Some x => x | None => None end;
  getXmlFromBinary := fun b => b;
  apvts_state := fun a => a;
  apvts_getRawParameterValue := fun _ _ => Fin (1 / 2);
  apvts_replaceState := fun v _ => v
|}.

(** The tone filter over [dcJuce] with the given balance, its low shelf
    at a gain of 2.5 and its high shelf flat. *)
Definition dcToneProcessor (balance : fp) : @ToneProcessor.t dcJuce :=
  {| ToneProcessor.lowFilter :=
       {| Filter.coefficients := Fin (5 / 2) : @Coefficients dcJuce;
          Filter.memory := tt : @FilterMemory dcJuce |};
     ToneProcessor.highFilter :=
       {| Filter.coefficients := Fin 1 : @Coefficients dcJuce;
          Filter.memory := tt : @FilterMemory dcJuce |};
     ToneProcessor.fs := Fin 44100;
     ToneProcessor.balance := balance;
     ToneProcessor.modulatedPivot := Fin 1100;
     ToneProcessor.modulatedQ := Fin (757 / 1000) |}.

(** The default values of the eight controls ([createParameterLayout]). *)
Definition defaultControls : Controls :=
  {| c_drive := Fin 1; c_tone := Fin (1 / 2); c_distortion := Fin 1;
     c_cutoff := Fin (3 / 4); c_foldDepth := Fin (2 / 10);
     c_flavor := Fin (1 / 2); c_outputGain := Fin 1;
     c_drywet := Fin (1 / 2) |}.

Definition withDrive (d : fp) (c : Controls) : Controls :=
  {| c_drive := d; c_tone := c_tone c; c_distortion := c_distortion c;
     c_cutoff := c_cutoff c; c_foldDepth := c_foldDepth c;
     c_flavor := c_flavor c; c_outputGain := c_outputGain c;
     c_drywet := c_drywet c |}.

Definition withFlavor (f : fp) (c : Controls) : Controls :=
  {| c_drive := c_drive c; c_tone := c_tone c;
     c_distortion := c_distortion c;
     c_cutoff := c_cutoff c; c_foldDepth := c_foldDepth c;
     c_flavor := f; c_outputGain := c_outputGain c;
     c_drywet := c_drywet c |}.

Definition withDryWet (w : fp) (c : Controls) : Controls :=
  {| c_drive := c_drive c; c_tone := c_tone c;
     c_distortion := c_distortion c;
     c_cutoff := c_cutoff c; c_foldDepth := c_foldDepth c;
     c_flavor := c_flavor c; c_outputGain := c_outputGain c;
     c_drywet := w |}.


(** The sample points of the specification's tests of the cutoff mapping. *)
Definition cutoffSweep : list R :=
  [0; 1 / 10; 2 / 10; 3 / 10; 4 / 10; 5 / 10; 6 / 10; 7 / 10; 8 / 10;
   9 / 10; 1].

Definition roundTripPoints : list R := [0; 1 / 4; 1 / 2; 3 / 4; 1].

(** Fully wet, fold branch only; everything else at its default. *)
Definition wetFoldControls : Controls :=
  withDryWet (Fin 1) (withFlavor (Fin 1) defaultControls).

(* ================================================================== *)
(** ** Further definitions read off the stages *)

(** The smoothing coefficient [alpha] that [Overdrive::processSample]
    computes from the tone [t] and the sample rate [r], on real numbers:
    [cutoff = 200 + t * 8000], [RC = 1 / (2 pi cutoff)], [dt = 1 / r],
    [alpha = dt / (RC + dt)]. *)
Definition overdriveAlpha (t r : R) : R :=
  let cutoff := 200 + t * 8000 in
  let RC := 1 / (2 * PI * cutoff) in
  let dt := 1 / r in
  dt / (RC + dt).

(** A sample that is a number between -1 and 1, or NaN. *)
Definition clippedOrNaN (y : fp) : Prop := y = NaN \/ in_range (-1) 1 y.

(** Everything in a processor that is a setting rather than signal state:
    the parameter tree and preset name, the host's sample rate and channel
    counts, and the stages' parameters and filter coefficients.  (Signal
    state is what is left: the smoother accumulators, the filters' delay
    elements, the compressor, the oversampler.) *)
Section Settings.
Context {J : Juce}.

Definition stageSettings (p : Processor) :=
  (Overdrive.drive (overdrive p), Overdrive.tone (overdrive p),
   (Distortion.preGain (dist p), Distortion.sliderValue (dist p),
    Distortion.cutoff (dist p), Distortion.fs (dist p),
    Filter.coefficients (fst (Distortion.filters (dist p))),
    Filter.coefficients (snd (Distortion.filters (dist p)))),
   Wavefolder.depth (fold p),
   (ToneProcessor.fs (toneProcessor p),
    ToneProcessor.balance (toneProcessor p),
    ToneProcessor.modulatedPivot (toneProcessor p),
    ToneProcessor.modulatedQ (toneProcessor p),
    Filter.coefficients (ToneProcessor.lowFilter (toneProcessor p)),
    Filter.coefficients (ToneProcessor.highFilter (toneProcessor p)))).

Definition hostSettings (p : Processor) :=
  (parameters p, currentPresetName p, getSampleRate p,
   getTotalNumInputChannels p, getTotalNumOutputChannels p).

(** The signal state the once-per-block update must not disturb. *)
Definition signalState (p : Processor) :=
  (Overdrive.prevY (overdrive p),
   Distortion.postPrev (dist p),
   Filter.memory (fst (Distortion.filters (dist p))),
   Filter.memory (snd (Distortion.filters (dist p))),
   Filter.memory (ToneProcessor.lowFilter (toneProcessor p)),
   Filter.memory (ToneProcessor.highFilter (toneProcessor p)),
   simpleComp p, oversampler p).
End Settings.




(* ================================================================== *)
(** ** The percent conversions of [createParameterLayout]

    A display function prints an integer followed by the percent sign; a
    text-to-value function cuts the text at the sign and reads the number
    in front of it.  Making and reading the text is
    [juce::String]'s part; the functions below are the arithmetic on
    either side of it: the integer that is printed, and the value computed
    from the number that was read. *)

(** The C conversion [(int) x] of a real number: truncation toward
    zero. *)
Definition truncZ (r : R) : Z :=
  if Rle_dec 0 r then Int_part r else (- Int_part (- r))%Z.

(** [(int) x] on a sample; the conversion is undefined on NaN, on the
    infinities and outside the range of [int]. *)
Definition castToInt (x : fp) : option Z :=
  match x with
  | Fin r =>
      if Rlt_dec (- 2 ^ 31 - 1) r
      then if Rlt_dec r (2 ^ 31) then Some (truncZ r) else None
      else None
  | _ => None
  end.

(** Single precision.  In these conversions rounding decides the result:
    [(int)] cuts the rounded product, which can lie on the other side of
    an integer than the exact one.  [rnd] stands for rounding a real
    number to [float], and [fround] applies it to a sample.
    [FloatRounding] lists what is used of it: it is monotone, it leaves
    the integers up to 256 alone, and up to 256 it moves a number by at
    most 2^-17, half the spacing of the [float]s between 128 and 256. *)
Definition fround (rnd : R -> R) (x : fp) : fp :=
  match x with Fin r => Fin (rnd r) | _ => x end.

Record FloatRounding (rnd : R -> R) : Prop := {
  rnd_monotone : forall x y, x <= y -> rnd x <= rnd y;
  rnd_integer : forall n : Z, (Z.abs n <= 256)%Z -> rnd (IZR n) = IZR n;
  rnd_error : forall x, Rabs x <= 256 -> Rabs (rnd x - x) <= / 2 ^ 17
}.

(** A rounding with these properties: to the nearest multiple of 2^-16,
    halves upward. *)
Definition gridRound (x : R) : R := IZR (Zfloor (x * 65536 + 1 / 2)) / 65536.

Section SinglePrecision.
Variable rnd : R -> R.

(** "tone", "fold", "output", "drywet": [(int)(value * 100.0f)] and "%";
    back: [t / 100.0f]. *)
Definition percentDisplay (value : fp) : option Z :=
  castToInt (fround rnd (value * Fin 100)%fp).

Definition percentTextToValue (t : fp) : fp :=
  fround rnd (t / Fin 100)%fp.

(** "flavor": [(int)((value * 200.0f) - 100.0f)] and "%";
    back: [(t + 100.0f) / 200.0f]. *)
Definition flavorDisplay (value : fp) : option Z :=
  castToInt (fround rnd (fround rnd (value * Fin 200) - Fin 100)%fp).

Definition flavorTextToValue (t : fp) : fp :=
  fround rnd (fround rnd (t + Fin 100) / Fin 200)%fp.
End SinglePrecision.

(* ================================================================== *)
(** ** Saving presets, and the editor's Save and Load buttons *)

(** The further operations of [juce::File], [juce::ValueTree] and
    [juce::XmlElement] that saving uses.  [xml_writeTo x f] is the file
    [f] as it is after [x] has been written to it. *)
Class JuceIO {J : Juce} : Type := {
  file_hasFileExtension : File -> string -> bool;
  file_getFullPathName : File -> string;
  file_getFileNameWithoutExtension : File -> string;
  apvts_copyState : APVTS -> ValueTree;
  valueTree_createXml : ValueTree -> option XmlElement;
  xml_setAttribute : string -> string -> XmlElement -> XmlElement;
  xml_writeTo : XmlElement -> File -> File
}.

Section Presets.
Context {J : Juce} {IO : JuceIO}.

(** [savePresetToFile]: the processor is not changed; the result is the
    file after the call. *)
Definition savePresetToFile (file : File) (p : Processor) : File :=
  if negb (file_hasFileExtension file ".preset") then file
  else
    match valueTree_createXml (apvts_copyState (parameters p)) with
    | Some xml =>
        xml_writeTo (xml_setAttribute "presetName" (currentPresetName p) xml)
          file
    | None => file
    end.

(** The part of the editor the two buttons change. *)
Record Editor : Type := { presetNameLabel : string }.

Definition isNotEmpty (s : string) : bool :=
  match s with EmptyString => false | _ => true end.

(** The callback of the Save button's file chooser. *)
Definition onSaveChosen (file : File) (ed : Editor) (p : Processor)
  : Editor * File :=
  if isNotEmpty (file_getFullPathName file)
  then ({| presetNameLabel := file_getFileNameWithoutExtension file |},
        savePresetToFile file p)
  else (ed, file).

(** The callback of the Load button's file chooser. *)
Definition onLoadChosen (file : File) (ed : Editor) (p : Processor)
  : Editor * Processor :=
  if file_existsAsFile file
  then ({| presetNameLabel := file_getFileNameWithoutExtension file |},
        loadPresetFromFile file p)
  else (ed, p).
End Presets.

(** File operations for [wireJuce]: every file is called "bank/lead.preset". *)
Definition wireJuceIO : @JuceIO wireJuce := {|
  file_hasFileExtension := fun _ ext => String.eqb ext ".preset";
  file_getFullPathName := fun _ => "bank/lead.preset"%string;
  file_getFileNameWithoutExtension := fun _ => "lead"%string;
  apvts_copyState := fun a : @APVTS wireJuce => (a : @ValueTree wireJuce);
  valueTree_createXml :=
    fun v : @ValueTree wireJuce => Some (v : @XmlElement wireJuce);
  xml_setAttribute := fun _ _ (x : @XmlElement wireJuce) => x;
  xml_writeTo :=
    fun (x : @XmlElement wireJuce) _ => (Some (Some x) : @File wireJuce)
|}.

(* ================================================================== *)
(** ** [isBusesLayoutSupported] *)

Section BusesLayout.
(** [juce::AudioChannelSet] with its [operator==], and the two sets the
    function names. *)
Variable ChannelSet : Type.
Variable channelSet_eqb : ChannelSet -> ChannelSet -> bool.
Variables mono stereo : ChannelSet.

(** [isMidiEffect] and [isSynth] are the build settings
    [JucePlugin_IsMidiEffect] and [JucePlugin_IsSynth]. *)
Definition isBusesLayoutSupported (isMidiEffect isSynth : bool)
    (mainInput mainOutput : ChannelSet) : bool :=
  if isMidiEffect then true
  else if negb (channelSet_eqb mainOutput mono)
          && negb (channelSet_eqb mainOutput stereo) then false
  else if negb isSynth && negb (channelSet_eqb mainOutput mainInput)
       then false
  else true.
End BusesLayout.

(* ================================================================== *)
(** ** The editor's layout ([DREKAVACAudioProcessorEditor::resized]) *)

(** The arguments of a [setBounds (x, y, width, height)] call.  The code
    computes on [int]; sizes of windows are far from its limits, so the
    integers here are unbounded. *)
Record Rect : Type := { rect_x : Z; rect_y : Z; rect_w : Z; rect_h : Z }.

Local Open Scope Z_scope.

Definition margin : Z := 20%Z.
Definition sliderHeight : Z := 40%Z.
Definition labelHeight : Z := 20%Z.
Definition spacing : Z := 15%Z.

(** [(getWidth() - 3 * margin) / 2], C division. *)
Definition columnWidth (width : Z) : Z := Z.quot (width - 3 * margin) 2%Z.

(** The loop over [sliders], from index [i] on, with the two running
    heights [yLeft] and [yRight]: for each control the bounds given to its
    label and to its slider. *)
Fixpoint layoutSliders (count i : nat) (width yLeft yRight : Z)
  : list (Rect * Rect) :=
  match count with
  | O => []
  | S count' =>
      let isLeft := Nat.even i in
      let x := if isLeft then margin else margin * 2 + columnWidth width in
      let y := if isLeft then yLeft else yRight in
      let label :=
        {| rect_x := x; rect_y := y;
           rect_w := columnWidth width; rect_h := labelHeight |} in
      let y1 := y + labelHeight in
      let slider :=
        {| rect_x := x; rect_y := y1;
           rect_w := columnWidth width; rect_h := sliderHeight |} in
      let y2 := y1 + (sliderHeight + spacing) in
      (label, slider)
        :: layoutSliders count' (S i) width
             (if isLeft then y2 else yLeft) (if isLeft then yRight else y2)
  end.

(** Everything [resized] places: the [numSliders] label/slider pairs and
    the four footer components. *)
Record Layout : Type := {
  sliderBounds : list (Rect * Rect);
  presetTitleBounds : Rect;
  presetNameBounds : Rect;
  saveButtonBounds : Rect;
  loadButtonBounds : Rect
}.

Definition resized (numSliders : nat) (width height : Z) : Layout :=
  let footerTop := height - 60 in
  let buttonWidth := 100 in
  let buttonHeight := 22 in
  let buttonGap := 5 in
  let rightX := width - buttonWidth - 10 in
  {| sliderBounds := layoutSliders numSliders 0 width 150 150;
     presetTitleBounds :=
       {| rect_x := 10; rect_y := footerTop + 5;
          rect_w := 100; rect_h := 20 |};
     presetNameBounds :=
       {| rect_x := 10; rect_y := footerTop + 25;
          rect_w := 100; rect_h := 30 |};
     saveButtonBounds :=
       {| rect_x := rightX; rect_y := footerTop + 5;
          rect_w := buttonWidth; rect_h := buttonHeight |};
     loadButtonBounds :=
       {| rect_x := rightX;
          rect_y := footerTop + 5 + buttonHeight + buttonGap;
          rect_w := buttonWidth; rect_h := buttonHeight |} |}.

(** Two rectangles that share no interior point. *)
Definition disjoint (a b : Rect) : Prop :=
  rect_x a + rect_w a <= rect_x b \/ rect_x b + rect_w b <= rect_x a
  \/ rect_y a + rect_h a <= rect_y b \/ rect_y b + rect_h b <= rect_y a.

(** Where the loop puts control [i]: left column for even [i], right
    column for odd [i], row [i / 2]. *)
Definition sliderSlot (width : Z) (i : nat) : Rect * Rect :=
  let x := if Nat.even i then 20 else 40 + columnWidth width in
  let y := 150 + 75 * Z.of_nat (i / 2)%nat in
  ({| rect_x := x; rect_y := y;
      rect_w := columnWidth width; rect_h := 20 |},
   {| rect_x := x; rect_y := y + 20;
      rect_w := columnWidth width; rect_h := 40 |}).

Local Close Scope Z_scope.
(* ================================================================== *)
(** * Properties *)

(** ** Real-number facts about [tanh], [ln] and powers *)

Lemma cosh_pos (x : R) : 0 < cosh x.
Proof.
  unfold cosh. pose proof (exp_pos x). pose proof (exp_pos (- x)). lra.
Qed.

Lemma tanh_0 : tanh 0 = 0.
Proof. unfold tanh. rewrite sinh_0. lra. Qed.

Lemma tanh_increasing (x y : R) : x < y -> tanh x < tanh y.
Proof.
  intros Hxy. unfold tanh.
  pose proof (cosh_pos x) as Hcx. pose proof (cosh_pos y) as Hcy.
  apply Rmult_lt_reg_r with (r := cosh x * cosh y); [nra|].
  replace (sinh x / cosh x * (cosh x * cosh y)) with (sinh x * cosh y)
    by (field; lra).
  replace (sinh y / cosh y * (cosh x * cosh y)) with (sinh y * cosh x)
    by (field; lra).
  unfold sinh, cosh.
  assert (Hm : exp x * exp (- y) < exp y * exp (- x)).
  { rewrite <- !exp_plus. apply exp_increasing. lra. }
  nra.
Qed.

Lemma tanh_injective (x y : R) : tanh x = tanh y -> x = y.
Proof.
  intros H. destruct (Rtotal_order x y) as [Hlt | [Heq | Hgt]]; auto.
  - apply tanh_increasing in Hlt. lra.
  - apply tanh_increasing in Hgt. lra.
Qed.

Lemma tanh_lt_1 (x : R) : tanh x < 1.
Proof.
  unfold tanh. pose proof (cosh_pos x) as Hc.
  apply Rmult_lt_reg_r with (r := cosh x); [lra|].
  replace (sinh x / cosh x * cosh x) with (sinh x) by (field; lra).
  unfold sinh, cosh. pose proof (exp_pos (- x)). lra.
Qed.

Lemma tanh_1_bound : tanh 1 < 9 / 10.
Proof.
  unfold tanh. pose proof (cosh_pos 1) as Hc.
  apply Rmult_lt_reg_r with (r := cosh 1); [lra|].
  replace (sinh 1 / cosh 1 * cosh 1) with (sinh 1) by (field; lra).
  unfold sinh, cosh.
  pose proof exp_le_3 as H3. pose proof (exp_pos 1) as Hp.
  assert (Hinv : / 3 <= exp (Ropp 1)).
  { rewrite exp_Ropp. apply Rinv_le_contravar; lra. }
  lra.
Qed.

Lemma Rpower_1_base (y : R) : Rpower 1 y = 1.
Proof. unfold Rpower. rewrite ln_1, Rmult_0_r. apply exp_0. Qed.

Lemma Rpower_pos (x y : R) : 0 < Rpower x y.
Proof. unfold Rpower. apply exp_pos. Qed.

Lemma ln_pos (x : R) : 1 < x -> 0 < ln x.
Proof. intros H. rewrite <- ln_1. apply ln_increasing; lra. Qed.

Lemma ln_neg (x : R) : 0 < x < 1 -> ln x < 0.
Proof. intros H. rewrite <- ln_1. apply ln_increasing; lra. Qed.

(** ** Arithmetic of finite samples *)

Lemma fdiv_fin (a b : R) : b <> 0 -> (Fin a / Fin b)%fp = Fin (a / b).
Proof. intros Hb. simpl. destruct (Req_dec_T b 0); [contradiction | reflexivity]. Qed.

Lemma flt_fin_true (a b : R) : a < b -> flt (Fin a) (Fin b) = true.
Proof. intros H. simpl. destruct (Rlt_dec a b); [reflexivity | contradiction]. Qed.

Lemma flt_fin_false (a b : R) : b <= a -> flt (Fin a) (Fin b) = false.
Proof. intros H. simpl. destruct (Rlt_dec a b); [lra | reflexivity]. Qed.

Lemma inf_of_sign_pos (r : R) : 0 < r -> inf_of_sign r = PInf.
Proof. intros H. unfold inf_of_sign. destruct (Rlt_dec 0 r); [reflexivity | lra]. Qed.

Lemma inf_of_sign_neg (r : R) : r < 0 -> inf_of_sign r = NInf.
Proof.
  intros H. unfold inf_of_sign.
  destruct (Rlt_dec 0 r); [lra|]. destruct (Rlt_dec r 0); [reflexivity | lra].
Qed.

Lemma fmul_1_r (x : fp) : (x * Fin 1)%fp = x.
Proof.
  destruct x; simpl; try reflexivity.
  - f_equal. lra.
  - apply inf_of_sign_pos. lra.
  - apply inf_of_sign_neg. lra.
Qed.

Lemma fadd_0_r (x : fp) : (x + Fin 0)%fp = x.
Proof. destruct x; simpl; try reflexivity. f_equal. lra. Qed.

Lemma fadd_0_l (x : fp) : (Fin 0 + x)%fp = x.
Proof. destruct x; simpl; try reflexivity. f_equal. lra. Qed.

Lemma fmul_0_r (x : fp) : is_finite x -> (x * Fin 0)%fp = Fin 0.
Proof. destruct x; simpl; try contradiction. intros _. f_equal. lra. Qed.

Lemma fsqrt_0 : fsqrt (Fin 0) = Fin 0.
Proof.
  simpl. destruct (Rlt_dec 0 0); [lra|]. now rewrite sqrt_0.
Qed.

Lemma fsqrt_1 : fsqrt (Fin 1) = Fin 1.
Proof.
  simpl. destruct (Rlt_dec 1 0); [lra|]. now rewrite sqrt_1.
Qed.

Lemma pow_fin_pos (x y : R) : 0 < x -> pow_fin x y = Fin (Rpower x y).
Proof.
  intros Hx. unfold pow_fin.
  destruct (Req_dec_T y 0) as [-> | Hy].
  - rewrite Rpower_O by assumption. reflexivity.
  - destruct (Rlt_dec 0 x); [reflexivity | contradiction].
Qed.

Lemma pow_fin_zero (y : R) : 0 < y -> pow_fin 0 y = Fin 0.
Proof.
  intros Hy. unfold pow_fin.
  destruct (Req_dec_T y 0); [lra|].
  destruct (Rlt_dec 0 0); [lra|].
  destruct (Req_dec_T 0 0); [|lra].
  destruct (Rlt_dec 0 y); [reflexivity | contradiction].
Qed.

Lemma jlimit_fin (lo hi v : R) :
  lo <= v <= hi -> jlimit (Fin lo) (Fin hi) (Fin v) = Fin v.
Proof.
  intros [H1 H2]. unfold jlimit.
  rewrite flt_fin_false by assumption. rewrite flt_fin_false by assumption.
  reflexivity.
Qed.

(** [jlimit] puts every number, finite or infinite, into the range; NaN is
    the one value it lets through. *)
Lemma jlimit_in_range (lo hi : R) (v : fp) :
  lo <= hi -> v = NaN \/ in_range lo hi (jlimit (Fin lo) (Fin hi) v).
Proof.
  intros Hle. destruct v as [r | | |]; [| right | right | left; reflexivity].
  - right. unfold jlimit. simpl.
    destruct (Rlt_dec r lo); simpl; [lra|].
    destruct (Rlt_dec hi r); simpl; lra.
  - unfold jlimit. simpl. lra.
  - unfold jlimit. simpl. lra.
Qed.

Lemma jlimit_nan (lo hi : fp) : jlimit lo hi NaN = NaN.
Proof. unfold jlimit. destruct lo, hi; reflexivity. Qed.

(* ================================================================== *)
(** ** The logarithmic cutoff mapping *)

Lemma flog_pos (r : R) : 0 < r -> flog (Fin r) = Fin (ln r).
Proof.
  intros H. simpl. destruct (Rlt_dec r 0); [lra|].
  destruct (Req_dec_T r 0); [lra | reflexivity].
Qed.

Lemma ratio_hz : (maxHz / minHz)%fp = Fin 80.
Proof.
  unfold maxHz, minHz. rewrite fdiv_fin by lra. f_equal. lra.
Qed.

Lemma cutoffHz_pos (n : R) :
  0 < n -> cutoffHz (Fin n) = Fin (100 * Rpower 80 (Rpower n (7 / 10))).
Proof.
  intros Hn. unfold cutoffHz. rewrite ratio_hz. unfold exponent, minHz.
  simpl. rewrite (pow_fin_pos n) by assumption.
  simpl. rewrite pow_fin_pos by lra. reflexivity.
Qed.

Lemma cutoffHz_0 : cutoffHz (Fin 0) = Fin 100.
Proof.
  unfold cutoffHz. rewrite ratio_hz. unfold exponent, minHz.
  simpl. rewrite pow_fin_zero by lra. simpl.
  unfold pow_fin. destruct (Req_dec_T 0 0); [|lra]. simpl. f_equal. lra.
Qed.

Lemma cutoffHz_1 : cutoffHz (Fin 1) = Fin 8000.
Proof.
  rewrite cutoffHz_pos by lra. rewrite Rpower_1_base.
  rewrite Rpower_1 by lra. f_equal. lra.
Qed.

(** The mapping is strictly increasing on the non-negative numbers. *)
Lemma cutoffHz_increasing (a b : R) :
  0 <= a -> a < b -> fp_lt (cutoffHz (Fin a)) (cutoffHz (Fin b)).
Proof.
  intros Ha Hab. unfold fp_lt.
  rewrite (cutoffHz_pos b) by lra.
  destruct (Req_dec_T a 0) as [-> | Hne].
  - rewrite cutoffHz_0. apply flt_fin_true.
    assert (H1 : Rpower 80 0 < Rpower 80 (Rpower b (7 / 10))).
    { apply Rpower_lt; [lra | apply Rpower_pos]. }
    rewrite Rpower_O in H1 by lra. lra.
  - rewrite (cutoffHz_pos a) by lra. apply flt_fin_true.
    assert (H1 : Rpower a (7 / 10) < Rpower b (7 / 10)).
    { apply Rlt_Rpower_l; lra. }
    assert (H2 : Rpower 80 (Rpower a (7 / 10)) < Rpower 80 (Rpower b (7 / 10))).
    { apply Rpower_lt; lra. }
    lra.
Qed.

(** Going to Hz and back is the identity on [0, 1]. *)
Lemma cutoff_round_trip (n : R) :
  0 <= n <= 1 -> cutoffTextToValue (cutoffHz (Fin n)) = Fin n.
Proof.
  intros [H0 H1]. unfold cutoffTextToValue. rewrite ratio_hz.
  rewrite (flog_pos 80) by lra.
  pose proof (ln_pos 80 ltac:(lra)) as Hln.
  destruct (Req_dec_T n 0) as [-> | Hne].
  - rewrite cutoffHz_0. unfold minHz, exponent.
    rewrite !fdiv_fin by lra. rewrite flog_pos by lra.
    rewrite fdiv_fin by lra.
    replace (ln (100 / 100) / ln 80) with 0.
    + simpl. rewrite pow_fin_zero by lra. apply jlimit_fin. lra.
    + replace (100 / 100) with 1 by lra. rewrite ln_1. lra.
  - rewrite cutoffHz_pos by lra. unfold minHz, exponent.
    rewrite !fdiv_fin by lra.
    set (t := Rpower n (7 / 10)).
    assert (Ht : 0 < t) by apply Rpower_pos.
    replace (100 * Rpower 80 t / 100) with (Rpower 80 t) by lra.
    rewrite flog_pos by apply Rpower_pos.
    rewrite fdiv_fin by lra. rewrite ln_Rpower.
    replace (t * ln 80 / ln 80) with t by (field; lra).
    simpl. rewrite pow_fin_pos by assumption.
    unfold t. rewrite Rpower_mult.
    replace (7 / 10 * (1 / (7 / 10))) with 1 by lra.
    rewrite Rpower_1 by lra. apply jlimit_fin. lra.
Qed.

(** C5.  Over the sweep 0, 0.1, ..., 1.0 the mapped frequency
    [100 * 80 ^ (norm ^ 0.7)] is strictly increasing, from 100 Hz to
    8000 Hz; and at 0, 0.25, 0.5, 0.75 and 1 the inverse mapping applied to
    the mapped frequency gives back the normalized value within 1e-4. *)
Theorem cutoff_mapping_monotone_and_invertible :
  StronglySorted fp_lt (map (fun n => cutoffHz (Fin n)) cutoffSweep)
  /\ cutoffHz (Fin 0) = Fin 100
  /\ cutoffHz (Fin 1) = Fin 8000
  /\ Forall (fun n => exists r,
               cutoffTextToValue (cutoffHz (Fin n)) = Fin r
               /\ Rabs (r - n) <= 1 / 10000) roundTripPoints.
Proof.
  split; [| split; [apply cutoffHz_0 | split; [apply cutoffHz_1 |]]].
  - unfold cutoffSweep. simpl.
    repeat (apply SSorted_cons;
            [| repeat (apply Forall_cons; [apply cutoffHz_increasing; lra |]);
               apply Forall_nil]).
    apply SSorted_nil.
  - unfold roundTripPoints.
    repeat (apply Forall_cons;
            [eexists; split;
             [apply cutoff_round_trip; lra
             | rewrite Rminus_diag, Rabs_R0; lra] |]).
    apply Forall_nil.
Qed.

(* ------------------------------------------------------------------ *)
(** *** The text-to-value direction outside its domain *)

Lemma inverse_exponent_not_integer : is_integer (1 / (7 / 10)) = false.
Proof.
  unfold is_integer.
  destruct (Req_dec_T (1 / (7 / 10)) (IZR (Int_part (1 / (7 / 10)))))
    as [e | ne]; [exfalso | reflexivity].
  set (z := Int_part (1 / (7 / 10))) in e.
  assert (H : IZR 10 = IZR (7 * z)) by (rewrite mult_IZR; lra).
  apply eq_IZR in H. lia.
Qed.

Lemma pow_fin_negative_base (x : R) : x < 0 -> pow_fin x (1 / (7 / 10)) = NaN.
Proof.
  intros Hx. unfold pow_fin.
  destruct (Req_dec_T (1 / (7 / 10)) 0); [lra|].
  destruct (Rlt_dec 0 x); [lra|].
  destruct (Req_dec_T x 0); [lra|].
  now rewrite inverse_exponent_not_integer.
Qed.

(** Below [minHz] the logarithm is negative and the fractional power of a
    negative number is NaN, which [jlimit] returns unchanged. *)
Lemma cutoffTextToValue_below_minHz (hz : R) :
  0 < hz < 100 -> cutoffTextToValue (Fin hz) = NaN.
Proof.
  intros Hhz. unfold cutoffTextToValue. rewrite ratio_hz.
  rewrite (flog_pos 80) by lra.
  pose proof (ln_pos 80 ltac:(lra)) as Hln.
  unfold minHz, exponent. rewrite !fdiv_fin by lra.
  assert (Hq : 0 < hz / 100 < 1) by lra.
  rewrite flog_pos by lra. rewrite fdiv_fin by lra.
  pose proof (ln_neg _ Hq) as Hneg.
  simpl fpow. rewrite pow_fin_negative_base.
  - apply jlimit_nan.
  - apply Rmult_lt_reg_r with (r := ln 80); [assumption|].
    replace (ln (hz / 100) / ln 80 * ln 80) with (ln (hz / 100))
      by (field; lra).
    lra.
Qed.

(** A negative frequency: the logarithm itself is NaN. *)
Lemma cutoffTextToValue_negative (hz : R) :
  hz < 0 -> cutoffTextToValue (Fin hz) = NaN.
Proof.
  intros Hhz. unfold cutoffTextToValue. rewrite ratio_hz.
  rewrite (flog_pos 80) by lra.
  unfold minHz, exponent. rewrite !fdiv_fin by lra.
  simpl flog. destruct (Rlt_dec (hz / 100) 0) as [_ | Hn]; [| exfalso; lra].
  simpl fdiv. simpl fpow.
  destruct (Req_dec_T (1 / (7 / 10)) 0); [lra|].
  apply jlimit_nan.
Qed.

(** Text that does not parse reads as 0 Hz: the logarithm is -infinity,
    its power +infinity, and the clamp answers 1. *)
Lemma cutoffTextToValue_zero : cutoffTextToValue (Fin 0) = Fin 1.
Proof.
  unfold cutoffTextToValue. rewrite ratio_hz.
  rewrite (flog_pos 80) by lra.
  pose proof (ln_pos 80 ltac:(lra)) as Hln.
  unfold minHz, exponent. rewrite !fdiv_fin by lra.
  replace (0 / 100) with 0 by lra.
  simpl flog. destruct (Rlt_dec 0 0); [lra|].
  destruct (Req_dec_T 0 0); [|lra].
  simpl fdiv. destruct (Rlt_dec (ln 80) 0); [lra|].
  simpl fpow. destruct (Req_dec_T (1 / (7 / 10)) 0); [lra|].
  destruct (Rlt_dec (1 / (7 / 10)) 0); [lra|].
  unfold is_odd_integer. rewrite inverse_exponent_not_integer. simpl.
  reflexivity.
Qed.

(** Typing "50 Hz" makes the text-to-value function return NaN. *)
Lemma cutoffTextToValue_50_is_nan : cutoffTextToValue (Fin 50) = NaN.
Proof. apply cutoffTextToValue_below_minHz. lra. Qed.

(** Where the function does work: it takes the logarithm of [hz / minHz]
    as it is and clamps only the result; for every frequency of at least
    [minHz] = 100 Hz that result is a number in [0, 1]. *)
Lemma cutoffTextToValue_in_range (hz : R) :
  100 <= hz -> in_range 0 1 (cutoffTextToValue (Fin hz)).
Proof.
  intros Hhz. unfold cutoffTextToValue. rewrite ratio_hz.
  rewrite (flog_pos 80) by lra.
  pose proof (ln_pos 80 ltac:(lra)) as Hln.
  unfold minHz, exponent. rewrite !fdiv_fin by lra.
  rewrite flog_pos by lra. rewrite fdiv_fin by lra.
  set (qv := ln (hz / 100) / ln 80).
  assert (Hq : 0 <= qv).
  { unfold qv. apply Rmult_le_reg_r with (r := ln 80); [assumption|].
    replace (ln (hz / 100) / ln 80 * ln 80) with (ln (hz / 100))
      by (field; lra).
    rewrite Rmult_0_l. destruct (Req_dec_T hz 100) as [-> | Hne].
    - replace (100 / 100) with 1 by lra. rewrite ln_1. lra.
    - left. apply ln_pos. lra. }
  simpl fpow.
  assert (Hfin : exists v, pow_fin qv (1 / (7 / 10)) = Fin v).
  { destruct (Req_dec_T qv 0) as [-> | Hne].
    - exists 0. apply pow_fin_zero. lra.
    - eexists. apply pow_fin_pos. lra. }
  destruct Hfin as [v Hv]. rewrite Hv.
  destruct (jlimit_in_range 0 1 (Fin v)) as [Hnan | Hin]; [lra | discriminate | exact Hin].
Qed.

Lemma cutoffTextToValue_in_range_witness :
  100 <= 440 /\ in_range 0 1 (cutoffTextToValue (Fin 440)).
Proof.
  split; [lra | apply (cutoffTextToValue_in_range 440); lra].
Defined.

(** C6.  The inverse mapping does not guard its logarithm.  The typed
    frequency goes into [log (hz / minHz)] unclamped; for 50 Hz the
    logarithm is negative, its power [1 / 0.7] is NaN, and the only clamp
    in the function, [jlimit (0, 1, norm)] on the result, hands the NaN
    back: the value returned for "50 Hz" is NaN, not a number in [0, 1].
    A negative frequency gives NaN as well, and 0 Hz gives 1, the top of
    the range, where the specification asks for 0. *)
Theorem cutoffTextToValue_unguarded_log :
  cutoffTextToValue (Fin 50) = NaN
  /\ ~ in_range 0 1 (cutoffTextToValue (Fin 50))
  /\ jlimit (Fin 0) (Fin 1) NaN = NaN
  /\ cutoffTextToValue (Fin (- 50)) = NaN
  /\ cutoffTextToValue (Fin 0) = Fin 1.
Proof.
  split; [| split; [| split; [| split]]].
  - apply cutoffTextToValue_below_minHz. lra.
  - rewrite cutoffTextToValue_below_minHz by lra. simpl. tauto.
  - apply jlimit_nan.
  - apply cutoffTextToValue_negative. lra.
  - apply cutoffTextToValue_zero.
Qed.

(* ================================================================== *)
(** ** Preset loading *)

Section Presets.
Context {J : Juce}.

Lemma setStateInformation_unparseable (data : Binary) (p : Processor) :
  getXmlFromBinary data = None -> setStateInformation data p = p.
Proof. intros H. unfold setStateInformation. now rewrite H. Qed.

(** [setStateInformation] has no tag check: whatever parses replaces the
    parameter state. *)
Lemma setStateInformation_replaces (data : Binary) (p : Processor)
    (xml : XmlElement) :
  getXmlFromBinary data = Some xml ->
  parameters (setStateInformation data p)
  = apvts_replaceState (valueTree_fromXml xml) (parameters p).
Proof. intros H. unfold setStateInformation. now rewrite H. Qed.

(** What does hold.  When the preset file does not exist, does not parse,
    or has a root tag other than the parameter state's type,
    [loadPresetFromFile] returns the processor as it was: parameter state
    and preset name are untouched.  Likewise [setStateInformation] on data
    that does not parse. *)
Lemma failed_load_keeps_state (file : File) (data : Binary)
    (p : Processor) :
  (loadFails file p -> loadPresetFromFile file p = p)
  /\ (getXmlFromBinary data = None -> setStateInformation data p = p).
Proof.
  split; [| apply setStateInformation_unparseable].
  intros [Hmissing | [Hparse | [xml [Hparse Htag]]]];
    unfold loadPresetFromFile.
  - now rewrite Hmissing.
  - rewrite Hparse. now destruct (file_existsAsFile file).
  - rewrite Hparse, Htag. now destruct (file_existsAsFile file).
Qed.

Lemma loadPresetFromFile_success (file : File) (p : Processor)
    (xml : XmlElement) :
  file_existsAsFile file = true ->
  xmlDocument_parse file = Some xml ->
  xml_hasTagName xml (valueTree_getType (apvts_state (parameters p)))
    = true ->
  parameters (loadPresetFromFile file p)
    = apvts_replaceState (valueTree_fromXml xml) (parameters p)
  /\ currentPresetName (loadPresetFromFile file p)
    = xml_getStringAttribute xml "presetName" "Unknown".
Proof.
  intros He Hp Ht. unfold loadPresetFromFile. rewrite He, Hp, Ht.
  split; reflexivity.
Qed.
End Presets.

(** A missing file, a file that is not XML, and a file with a foreign root
    tag, each loaded into the fresh processor; and state data that does not
    parse. *)
Lemma failed_load_keeps_state_witness :
  (loadFails (J := wireJuce) None wireProcessor
   /\ loadPresetFromFile (J := wireJuce) None wireProcessor = wireProcessor)
  /\ (loadFails (J := wireJuce) (Some None) wireProcessor
      /\ loadPresetFromFile (J := wireJuce) (Some None) wireProcessor
         = wireProcessor)
  /\ (loadFails (J := wireJuce) (Some (Some "OTHER"%string)) wireProcessor
      /\ loadPresetFromFile (J := wireJuce) (Some (Some "OTHER"%string))
           wireProcessor
         = wireProcessor)
  /\ (getXmlFromBinary (Juce := wireJuce) None = None
      /\ setStateInformation (J := wireJuce) None wireProcessor
         = wireProcessor).
Proof.
  assert (H1 : loadFails (J := wireJuce) None wireProcessor)
    by (left; reflexivity).
  assert (H2 : loadFails (J := wireJuce) (Some None) wireProcessor)
    by (right; left; reflexivity).
  assert (H3 : loadFails (J := wireJuce) (Some (Some "OTHER"%string))
                 wireProcessor)
    by (right; right; exists "OTHER"%string; split; reflexivity).
  split; [| split; [| split]]; (split; [first [assumption | reflexivity] |]).
  - exact (proj1 (failed_load_keeps_state (J := wireJuce) None None
                    wireProcessor) H1).
  - exact (proj1 (failed_load_keeps_state (J := wireJuce) (Some None) None
                    wireProcessor) H2).
  - exact (proj1 (failed_load_keeps_state (J := wireJuce)
                    (Some (Some "OTHER"%string)) None wireProcessor) H3).
  - exact (proj2 (failed_load_keeps_state (J := wireJuce) None None
                    wireProcessor) eq_refl).
Defined.

(** C9.  [setStateInformation] has no root-tag check.  State data whose
    XML parses but carries a foreign root tag ("OTHER" where the parameter
    state's type is "DREKAVAC_PARAMETERS") is one of the failures of the
    claim; the same XML in a preset file is turned down by
    [loadPresetFromFile], which leaves the processor as it was, but
    [setStateInformation] replaces the parameter state with it. *)
Theorem setStateInformation_foreign_tag_replaces_state :
  let data : @Binary wireJuce := Some "OTHER"%string in
  let file : @File wireJuce := Some (Some "OTHER"%string) in
  let p := wireProcessor in
  getXmlFromBinary data = Some ("OTHER"%string : @XmlElement wireJuce)
  /\ xmlDocument_parse file = Some ("OTHER"%string : @XmlElement wireJuce)
  /\ xml_hasTagName ("OTHER"%string : @XmlElement wireJuce)
       (valueTree_getType (apvts_state (parameters p))) = false
  /\ loadPresetFromFile file p = p
  /\ parameters (setStateInformation data p)
     = apvts_replaceState
         (valueTree_fromXml ("OTHER"%string : @XmlElement wireJuce))
         (parameters p)
  /\ parameters (setStateInformation data p) <> parameters p.
Proof.
  cbv zeta. repeat (split; [reflexivity |]).
  cbn. discriminate.
Qed.

(* ================================================================== *)
(** ** The compressor is outside the block loop *)

Section CompressorFrame.
Context {J : Juce}.

Lemma withSimpleComp_same (p : Processor) :
  withSimpleComp p (simpleComp p) = p.
Proof. now destruct p. Qed.

Lemma wetPath_withSimpleComp c rate p k x :
  wetPath c rate (withSimpleComp p k) x
  = (fst (wetPath c rate p x), withSimpleComp (snd (wetPath c rate p x)) k).
Proof.
  unfold wetPath. cbn [withSimpleComp overdrive dist fold toneProcessor].
  destruct (overdriveSample (overdrive p) x rate) as [od o].
  destruct (Distortion.processSample (dist p) od) as [ds d].
  match goal with
  | |- context [ToneProcessor.processSample ?a ?b] =>
      destruct (ToneProcessor.processSample a b) as [fl tp]
  end.
  reflexivity.
Qed.

Lemma processOne_withSimpleComp c rate p k x :
  processOne c rate (withSimpleComp p k) x
  = (fst (processOne c rate p x),
     withSimpleComp (snd (processOne c rate p x)) k).
Proof.
  unfold processOne. rewrite wetPath_withSimpleComp.
  destruct (wetPath c rate p x) as [fl p']. reflexivity.
Qed.

Lemma processSamples_withSimpleComp c rate k xs : forall p,
  processSamples c rate (withSimpleComp p k) xs
  = (fst (processSamples c rate p xs),
     withSimpleComp (snd (processSamples c rate p xs)) k).
Proof.
  induction xs as [| x rest IH]; intros p; simpl; [reflexivity|].
  rewrite processOne_withSimpleComp.
  destruct (processOne c rate p x) as [y p1]. simpl.
  rewrite IH. destruct (processSamples c rate p1 rest) as [ys p2].
  reflexivity.
Qed.

Lemma processChannels_withSimpleComp c rate k : forall block n p,
  processChannels c rate n (withSimpleComp p k) block
  = (fst (processChannels c rate n p block),
     withSimpleComp (snd (processChannels c rate n p block)) k).
Proof.
  induction block as [| ch rest IH]; intros n p.
  - destruct n; reflexivity.
  - destruct n as [| n']; [reflexivity|]. simpl.
    rewrite processSamples_withSimpleComp.
    destruct (processSamples c rate p ch) as [ch' p1]. simpl.
    rewrite IH. destruct (processChannels c rate n' p1 rest) as [r p2].
    reflexivity.
Qed.

Lemma processBlock_withSimpleComp p k buffer :
  processBlock (withSimpleComp p k) buffer
  = (fst (processBlock p buffer),
     withSimpleComp (snd (processBlock p buffer)) k).
Proof.
  unfold processBlock. simpl.
  destruct (os_processSamplesUp (oversampler p) _) as [up os].
  simpl.
  change (updateModules (readControls (parameters p))
            (withOversampler (withSimpleComp p k) os))
    with (withSimpleComp
            (updateModules (readControls (parameters p))
               (withOversampler p os)) k).
  rewrite processChannels_withSimpleComp.
  destruct (processChannels _ _ _ _ up) as [processed p2]. simpl.
  destruct (os_processSamplesDown (oversampler p2) processed _)
    as [out os2].
  reflexivity.
Qed.

(** C10.  [processBlock] leaves the compressor as it found it, and
    neither the samples it writes nor the state it leaves in the other
    stages depend on the compressor's state. *)
Theorem processBlock_ignores_compressor (p : Processor)
    (buffer : AudioBlock) (k : SimpleCompressor.t) :
  simpleComp (snd (processBlock p buffer)) = simpleComp p
  /\ fst (processBlock (withSimpleComp p k) buffer)
     = fst (processBlock p buffer)
  /\ snd (processBlock (withSimpleComp p k) buffer)
     = withSimpleComp (snd (processBlock p buffer)) k.
Proof.
  split; [| split].
  - rewrite <- (withSimpleComp_same p) at 1.
    rewrite processBlock_withSimpleComp. reflexivity.
  - rewrite processBlock_withSimpleComp. reflexivity.
  - rewrite processBlock_withSimpleComp. reflexivity.
Qed.
End CompressorFrame.

(** Had the compressor been run, its envelope would have moved: one sample
    of full scale through the fresh compressor. *)
Lemma compressor_processSample_moves_envelope :
  SimpleCompressor.envelope
    (snd (SimpleCompressor.processSample
            (simpleComp wireProcessor) (Fin 1)))
  <> SimpleCompressor.envelope (simpleComp wireProcessor).
Proof.
  unfold SimpleCompressor.processSample. simpl.
  destruct (Rlt_dec 0 (Rabs 1)) as [_ | Hn].
  - simpl. intros H. injection H as H. rewrite Rabs_R1 in H. lra.
  - exfalso. apply Hn. rewrite Rabs_R1. lra.
Qed.

(* ================================================================== *)
(** ** Parameter update and the Distortion stage *)

Section ParameterUpdate.
Context {J : Juce}.

(** C2, amended.  What the once-per-block update hands to the stages:
    tone and cutoff are clamped to [0, 1]; the distortion amount is
    clamped from below only; the fold depth is raised to the power 1.5
    and the result is clamped; drive goes to the overdrive and to the
    tone filter's pivot and Q as read; flavor, output gain and dry/wet
    enter the per-sample formula as read. *)
Theorem updateModules_clamping (c : Controls) (p : Processor) :
  let p' := updateModules c p in
  Overdrive.tone (overdrive p') = jlimit (Fin 0) (Fin 1) (c_tone c)
  /\ ToneProcessor.balance (toneProcessor p')
     = jlimit (Fin 0) (Fin 1) (c_tone c)
  /\ Distortion.sliderValue (dist p')
     = jlimit (Fin 0) (Fin 1) (c_cutoff c)
  /\ Distortion.cutoff (dist p')
     = cutoffHz (jlimit (Fin 0) (Fin 1) (c_cutoff c))
  /\ Distortion.preGain (dist p') = fmax (Fin 0) (c_distortion c)
  /\ Wavefolder.depth (fold p')
     = jlimit (Fin 0) (Fin 1) (fpow (c_foldDepth c) (Fin (3 / 2)))
  /\ Overdrive.drive (overdrive p') = c_drive c
  /\ ToneProcessor.modulatedPivot (toneProcessor p')
     = (Fin 1000 + c_drive c * Fin 100)%fp
  /\ ToneProcessor.modulatedQ (toneProcessor p')
     = (Fin (707 / 1000) + c_drive c * Fin (5 / 100))%fp
  /\ (forall rate x,
        fst (processOne c rate p' x)
        = mixOutput (c_drywet c) (c_outputGain c) x
            (fst (ToneProcessor.processSample (toneProcessor p')
               (let od := fst (overdriveSample (overdrive p') x rate) in
                flavorBlend (c_flavor c) od
                  (fst (Distortion.processSample (dist p') od))
                  (Wavefolder.processSample (fold p') od))))).
Proof.
  cbv zeta. repeat (split; [reflexivity |]).
  intros rate x. unfold processOne, wetPath.
  destruct (overdriveSample _ x rate) as [od o]. cbn [fst].
  destruct (Distortion.processSample _ od) as [ds d]. cbn [fst].
  match goal with
  | |- context [ToneProcessor.processSample ?a ?b] =>
      destruct (ToneProcessor.processSample a b) as [fl tp]
  end.
  reflexivity.
Qed.

(** Where a clamp is applied, the clamped value is in range unless the
    control was NaN. *)
Lemma updateModules_ranges (c : Controls) (p : Processor) :
  let p' := updateModules c p in
  (c_tone c = NaN \/ in_range 0 1 (Overdrive.tone (overdrive p')))
  /\ (c_tone c = NaN
      \/ in_range 0 1 (ToneProcessor.balance (toneProcessor p')))
  /\ (c_cutoff c = NaN
      \/ in_range 0 1 (Distortion.sliderValue (dist p'))).
Proof.
  cbv zeta. repeat split; apply jlimit_in_range; lra.
Qed.



(** What [prepareToPlay] does not reset: the overdrive's smoother
    accumulator and the Distortion stage's post low-pass accumulator keep
    the values they had before the call. *)
Lemma prepareToPlay_keeps_smoother_state (sampleRate : fp)
    (samplesPerBlock : nat) (p : Processor) :
  Overdrive.prevY (overdrive (prepareToPlay sampleRate samplesPerBlock p))
  = Overdrive.prevY (overdrive p)
  /\ Distortion.postPrev (dist (prepareToPlay sampleRate samplesPerBlock p))
     = Distortion.postPrev (dist p).
Proof. split; reflexivity. Qed.

(** What it does reset: the compressor's envelope, the delay elements of
    the four IIR filters, the oversampler. *)
Lemma prepareToPlay_resets (sampleRate : fp) (samplesPerBlock : nat)
    (p : Processor) :
  let p' := prepareToPlay sampleRate samplesPerBlock p in
  let spec := {| spec_sampleRate := getSampleRate p;
                 spec_maximumBlockSize := 512;
                 spec_numChannels := 1 |} in
  SimpleCompressor.envelope (simpleComp p') = Fin 0
  /\ oversampler p'
     = os_initProcessing samplesPerBlock (os_reset (oversampler p))
  /\ Filter.memory (fst (Distortion.filters (dist p')))
     = (let f := fst (Distortion.filters (dist p)) in
        memory_prepare spec (Filter.coefficients f)
          (memory_reset (Filter.coefficients f) (Filter.memory f)))
  /\ Filter.memory (snd (Distortion.filters (dist p')))
     = (let f := snd (Distortion.filters (dist p)) in
        memory_prepare spec (Filter.coefficients f)
          (memory_reset (Filter.coefficients f) (Filter.memory f)))
  /\ Filter.memory (ToneProcessor.lowFilter (toneProcessor p'))
     = memory_reset
         (Filter.coefficients (ToneProcessor.lowFilter (toneProcessor p')))
         (Filter.memory (ToneProcessor.lowFilter (toneProcessor p)))
  /\ Filter.memory (ToneProcessor.highFilter (toneProcessor p'))
     = memory_reset
         (Filter.coefficients (ToneProcessor.highFilter (toneProcessor p')))
         (Filter.memory (ToneProcessor.highFilter (toneProcessor p))).
Proof. cbv zeta. repeat split; reflexivity. Qed.

(** The overdrive part of the state after one pass through the loop
    body. *)
Lemma processOne_overdrive c rate (p : Processor) x :
  overdrive (snd (processOne c rate p x))
  = snd (overdriveSample (overdrive p) x rate).
Proof.
  unfold processOne, wetPath.
  destruct (overdriveSample (overdrive p) x rate) as [od o].
  destruct (Distortion.processSample (dist p) od) as [ds d].
  match goal with
  | |- context [ToneProcessor.processSample ?a ?b] =>
      destruct (ToneProcessor.processSample a b) as [fl tp]
  end.
  reflexivity.
Qed.
End ParameterUpdate.


(* ================================================================== *)
(** ** The overdrive on finite values *)

Lemma Overdrive_prevY_is_output (o : Overdrive.t) (input rate : fp) :
  Overdrive.prevY (snd (Overdrive.processSample o input rate))
  = fst (Overdrive.processSample o input rate).
Proof. reflexivity. Qed.

(** With a positive drive, a non-negative tone and a positive sample rate
    the stage is the one-pole smoother [y + a * (tanh (g * x) - y)] with a
    coefficient [a] strictly between 0 and 1. *)
Lemma Overdrive_processSample_finite (d t r : R) :
  0 < d -> 0 <= t -> 0 < r ->
  exists a, 0 < a < 1 /\
    forall x y,
      fst (Overdrive.processSample
             {| Overdrive.drive := Fin d; Overdrive.tone := Fin t;
                Overdrive.prevY := Fin y |} (Fin x) (Fin r))
      = Fin (y + a * (tanh (x * (1 + Rpower d 2)) - y)).
Proof.
  intros Hd Ht Hr.
  pose proof PI_RGT_0 as Hpi.
  set (cut := 200 + t * 8000).
  assert (Hcut : 0 < cut) by (unfold cut; nra).
  assert (Hden : 0 < 2 * PI * cut) by nra.
  set (RC := 1 / (2 * PI * cut)).
  assert (HRC : 0 < RC) by (unfold RC; apply Rdiv_lt_0_compat; lra).
  assert (Hdt : 0 < 1 / r) by (apply Rdiv_lt_0_compat; lra).
  assert (Hbound : forall u v, 0 < u -> 0 < v -> 0 < v / (u + v) < 1).
  { intros u v Hu Hv. split.
    - apply Rdiv_lt_0_compat; lra.
    - apply Rmult_lt_reg_r with (r := u + v); [lra|].
      replace (v / (u + v) * (u + v)) with v by (field; lra). lra. }
  exists (1 / r / (RC + 1 / r)). split.
  - apply Hbound; assumption.
  - intros x y. unfold Overdrive.processSample, pi_f.
    cbn [Overdrive.drive Overdrive.tone Overdrive.prevY fst].
    simpl fpow. rewrite pow_fin_pos by assumption.
    simpl. fold cut.
    destruct (Req_dec_T r 0) as [Hr0 | _]; [lra|].
    destruct (Req_dec_T (2 * PI * cut) 0) as [Hc0 | _]; [lra|].
    fold RC. simpl.
    destruct (Req_dec_T (RC + 1 / r) 0) as [Hs0 | _]; [lra|].
    reflexivity.
Qed.

(** Fresh overdrive, input sample 1.0, oversampled rate 176400 Hz: the
    sample the loop body takes from the overdrive is not the overdrive's
    answer to the input sample. *)
Lemma overdrive_sample_differs :
  fst (overdriveSample Overdrive.init (Fin 1) (Fin 176400))
  <> fst (Overdrive.processSample Overdrive.init (Fin 1) (Fin 176400)).
Proof.
  unfold overdriveSample, preGain, Overdrive.init. simpl fmul.
  destruct (Overdrive_processSample_finite 1 (1 / 2) 176400)
    as [a [[Ha0 Ha1] Heq]]; try lra.
  rewrite !Heq. rewrite Rpower_1_base.
  intros H. injection H as H.
  assert (Ht : tanh (1 * (6 / 10) * (1 + 1)) = tanh (1 * (1 + 1))) by nra.
  apply tanh_injective in Ht. lra.
Qed.

(* ================================================================== *)
(** ** The per-sample pipeline *)

Lemma fsub_1_0 : (Fin 1 - Fin 0)%fp = Fin 1.
Proof. simpl. f_equal. lra. Qed.

Lemma fsub_1_1 : (Fin 1 - Fin 1)%fp = Fin 0.
Proof. simpl. f_equal. lra. Qed.

Lemma fsin_0 : fsin (Fin 0 * halfPi)%fp = Fin 0.
Proof. simpl. rewrite Rmult_0_l, sin_0. reflexivity. Qed.

Lemma fsin_halfPi : fsin (Fin 1 * halfPi)%fp = Fin 1.
Proof. simpl. rewrite Rmult_1_l, sin_PI2. reflexivity. Qed.

(** With flavor 0 the fold branch has weight 0, with flavor 1 the
    distortion branch has. *)
Lemma flavorBlend_0 (od ds fs : fp) :
  is_finite fs -> flavorBlend (Fin 0) od ds fs = (od + ds)%fp.
Proof.
  intros Hf. unfold flavorBlend. rewrite fsin_0, fsub_1_0.
  rewrite fmul_1_r, (fmul_0_r fs Hf). apply fadd_0_r.
Qed.

Lemma flavorBlend_1 (od ds fs : fp) :
  is_finite ds -> flavorBlend (Fin 1) od ds fs = (od + fs)%fp.
Proof.
  intros Hd. unfold flavorBlend. rewrite fsin_halfPi, fsub_1_1.
  rewrite fmul_1_r, (fmul_0_r ds Hd). now rewrite fadd_0_r.
Qed.

(** With dry/wet 0 the output is the input through gain and clip; with
    dry/wet 1 it is the filtered sample through gain and clip. *)
Lemma mixOutput_dry (outputGain inputSample filtered : fp) :
  is_finite filtered ->
  mixOutput (Fin 0) outputGain inputSample filtered
  = ftanh (inputSample * outputGain)%fp.
Proof.
  intros Hf. unfold mixOutput. rewrite fsqrt_0, fsub_1_0.
  rewrite fmul_1_r, (fmul_0_r filtered Hf), fadd_0_r. reflexivity.
Qed.

Lemma mixOutput_wet (outputGain inputSample filtered : fp) :
  is_finite inputSample ->
  mixOutput (Fin 1) outputGain inputSample filtered
  = ftanh (filtered * outputGain)%fp.
Proof.
  intros Hx. unfold mixOutput. rewrite fsqrt_1, fsub_1_1.
  rewrite fmul_1_r, (fmul_0_r inputSample Hx), fadd_0_l. reflexivity.
Qed.

Section PerSample.
Context {J : Juce}.

Lemma processOne_output c rate (p : Processor) x :
  fst (processOne c rate p x)
  = mixOutput (c_drywet c) (c_outputGain c) x (fst (wetPath c rate p x)).
Proof.
  unfold processOne. now destruct (wetPath c rate p x).
Qed.

Lemma wetPath_output c rate (p : Processor) x :
  fst (wetPath c rate p x)
  = (let od := fst (overdriveSample (overdrive p) x rate) in
     fst (ToneProcessor.processSample (toneProcessor p)
            (flavorBlend (c_flavor c) od
               (fst (Distortion.processSample (dist p) od))
               (Wavefolder.processSample (fold p) od)))).
Proof.
  unfold wetPath.
  destruct (overdriveSample (overdrive p) x rate) as [od o].
  cbn [fst].
  destruct (Distortion.processSample (dist p) od) as [ds d].
  cbn [fst].
  match goal with
  | |- context [ToneProcessor.processSample ?a ?b] =>
      destruct (ToneProcessor.processSample a b) as [fl tp]
  end.
  reflexivity.
Qed.

(** The loop body is the specification's eight steps, with the overdrive
    fed the input sample times 0.6. *)
Lemma processOne_spec c rate (p : Processor) x :
  fst (processOne c rate p x)
  = Spec.perSample (fun s => (s * preGain)%fp) c rate p x.
Proof.
  rewrite processOne_output, wetPath_output. reflexivity.
Qed.

Lemma processSamples_nth c rate : forall xs (p : Processor) i x,
  nth_error xs i = Some x ->
  nth_error (fst (processSamples c rate p xs)) i
  = Some (fst (processOne c rate
                 (snd (processSamples c rate p (firstn i xs))) x)).
Proof.
  induction xs as [| a rest IH]; intros p i x Hi.
  - destruct i; discriminate.
  - destruct i as [| i'].
    + injection Hi as ->. simpl.
      destruct (processOne c rate p x) as [y p1].
      destruct (processSamples c rate p1 rest) as [ys p2].
      reflexivity.
    + simpl in Hi. simpl.
      destruct (processOne c rate p a) as [y p1].
      specialize (IH p1 i' x Hi).
      destruct (processSamples c rate p1 rest) as [ys p2].
      destruct (processSamples c rate p1 (firstn i' rest)) as [zs p3].
      exact IH.
Qed.

Lemma processChannels_nth c rate : forall block n (p : Processor) k ch,
  (k < n)%nat ->
  nth_error block k = Some ch ->
  nth_error (fst (processChannels c rate n p block)) k
  = Some (fst (processSamples c rate
                 (snd (processChannels c rate k p block)) ch)).
Proof.
  induction block as [| a rest IH]; intros n p k ch Hk Hnth.
  - destruct k; discriminate.
  - destruct n as [| n']; [lia|].
    destruct k as [| k'].
    + injection Hnth as ->. simpl.
      destruct (processSamples c rate p ch) as [ch' p1].
      destruct (processChannels c rate n' p1 rest) as [r p2].
      reflexivity.
    + simpl in Hnth. simpl.
      destruct (processSamples c rate p a) as [a' p1].
      specialize (IH n' p1 k' ch ltac:(lia) Hnth).
      destruct (processChannels c rate n' p1 rest) as [r p2].
      destruct (processChannels c rate k' p1 rest) as [r3 p3].
      exact IH.
Qed.

(** The loop nest of [processBlock] is [processChannels] on the
    oversampled block. *)
Lemma processBlock_loops (p : Processor) (buffer : AudioBlock) :
  let cleared := clearChannels 0 (getTotalNumInputChannels p)
                   (getTotalNumOutputChannels p) buffer in
  let up := os_processSamplesUp (oversampler p) cleared in
  let c := readControls (parameters p) in
  let p1 := updateModules c (withOversampler p (snd up)) in
  let rate := (getSampleRate p * os_getOversamplingFactor (snd up))%fp in
  let run := processChannels c rate (getTotalNumInputChannels p) p1
               (fst up) in
  fst (processBlock p buffer)
  = fst (os_processSamplesDown (oversampler (snd run)) (fst run) cleared).
Proof.
  cbv zeta. unfold processBlock.
  destruct (os_processSamplesUp (oversampler p) _) as [up os].
  cbn [fst snd withOversampler withStages updateModules parameters
       getSampleRate getTotalNumInputChannels getTotalNumOutputChannels
       oversampler overdrive dist fold toneProcessor].
  match goal with
  | |- context [processChannels ?a ?b ?n ?q ?bl] =>
      destruct (processChannels a b n q bl) as [processed p2]
  end.
  cbn [fst snd].
  now destruct (os_processSamplesDown (oversampler p2) processed _).
Qed.

(** C1, amended.  For every channel [k] the loop visits and every sample
    [i] of it, the sample written is the specification's steps 1 to 8
    applied to the input sample in the state the stages have reached,
    except that the overdrive is given the input sample times 0.6; the
    dry branch of the dry/wet blend uses the input sample itself. *)
Theorem processBlock_per_sample_pipeline (c : Controls) (rate : fp)
    (n : nat) (p : Processor) (block : AudioBlock)
    (k i : nat) (ch : list fp) (x : fp) :
  (k < n)%nat ->
  nth_error block k = Some ch ->
  nth_error ch i = Some x ->
  let pk := snd (processChannels c rate k p block) in
  let pki := snd (processSamples c rate pk (firstn i ch)) in
  exists ch',
    nth_error (fst (processChannels c rate n p block)) k = Some ch'
    /\ nth_error ch' i
       = Some (Spec.perSample (fun s => (s * preGain)%fp) c rate pki x).
Proof.
  intros Hk Hch Hx. cbv zeta.
  eexists. split.
  - apply processChannels_nth; eassumption.
  - rewrite (processSamples_nth c rate ch _ i x Hx).
    now rewrite processOne_spec.
Qed.

(** C3, amended.  With dry/wet at 0 the output sample is
    [tanh (inputSample * outputGain)], whatever the processed path
    produced (as long as it is finite); with dry/wet at 1 it is
    [tanh (filtered * outputGain)]. *)
Theorem dryWet_boundaries (c : Controls) (rate : fp) (p : Processor)
    (x : fp) :
  (c_drywet c = Fin 0 ->
   is_finite (fst (wetPath c rate p x)) ->
   fst (processOne c rate p x) = ftanh (x * c_outputGain c)%fp)
  /\ (c_drywet c = Fin 1 ->
      is_finite x ->
      fst (processOne c rate p x)
      = ftanh (fst (wetPath c rate p x) * c_outputGain c)%fp).
Proof.
  split; intros Hw Hfin; rewrite processOne_output, Hw.
  - now apply mixOutput_dry.
  - now apply mixOutput_wet.
Qed.

(** C8.  With flavor 0 the blend is [od + dist]: the tone filter is fed
    the overdrive and distortion samples only.  With flavor 1 the blend
    is [od + fold]. *)
Theorem flavor_boundaries (c : Controls) (rate : fp) (p : Processor)
    (x : fp) :
  let od := fst (overdriveSample (overdrive p) x rate) in
  let ds := fst (Distortion.processSample (dist p) od) in
  let fs := Wavefolder.processSample (fold p) od in
  (c_flavor c = Fin 0 ->
   is_finite fs ->
   flavorBlend (c_flavor c) od ds fs = (od + ds)%fp
   /\ fst (wetPath c rate p x)
      = fst (ToneProcessor.processSample (toneProcessor p) (od + ds)%fp))
  /\ (c_flavor c = Fin 1 ->
      is_finite ds ->
      flavorBlend (c_flavor c) od ds fs = (od + fs)%fp
      /\ fst (wetPath c rate p x)
         = fst (ToneProcessor.processSample (toneProcessor p)
                  (od + fs)%fp)).
Proof.
  cbv zeta. split; intros Hf Hfin; rewrite wetPath_output; cbv zeta;
    rewrite Hf.
  - rewrite (flavorBlend_0 _ _ _ Hfin). split; reflexivity.
  - rewrite (flavorBlend_1 _ _ _ Hfin). split; reflexivity.
Qed.
End PerSample.

(* ================================================================== *)
(** ** The loop body run on the fresh processor *)

Lemma fresh_overdrive_sample :
  exists a, 0 < a < 1 /\
    forall x y,
      fst (Overdrive.processSample
             {| Overdrive.drive := Fin 1; Overdrive.tone := Fin (1 / 2);
                Overdrive.prevY := Fin y |} (Fin x) (Fin 176400))
      = Fin (y + a * (tanh (x * 2) - y)).
Proof.
  destruct (Overdrive_processSample_finite 1 (1 / 2) 176400)
    as [a [Ha Heq]]; try lra.
  exists a. split; [assumption|]. intros x y. rewrite Heq.
  rewrite Rpower_1_base. replace (x * (1 + 1)) with (x * 2) by lra.
  reflexivity.
Qed.

Lemma wire_overdrive_finite (x : R) :
  exists v,
    fst (overdriveSample Overdrive.init (Fin x) (Fin 176400)) = Fin v.
Proof.
  destruct fresh_overdrive_sample as [a [_ Heq]].
  unfold overdriveSample, preGain, Overdrive.init. simpl fmul.
  rewrite Heq. eexists. reflexivity.
Qed.

Lemma wire_distortion_finite (x : R) :
  is_finite (fst (Distortion.processSample (dist wireProcessor) (Fin x))).
Proof.
  unfold Distortion.processSample. simpl.
  destruct (Req_dec_T 44100 0); [lra|]. simpl. exact I.
Qed.

(** The wavefolder maps finite samples to finite samples as long as its
    depth is a number. *)
Lemma Wavefolder_processSample_finite (w : Wavefolder.t) (x : fp) :
  is_finite (Wavefolder.depth w) -> is_finite x ->
  is_finite (Wavefolder.processSample w x).
Proof.
  destruct w as [dp]. simpl.
  destruct dp; try contradiction. destruct x; try contradiction.
  intros _ _. simpl. exact I.
Qed.

Lemma wire_wavefolder_finite (x : R) :
  is_finite (Wavefolder.processSample (fold wireProcessor) (Fin x)).
Proof. apply Wavefolder_processSample_finite; exact I. Qed.

Lemma wire_wetPath_finite (c : Controls) (x : R) :
  is_finite (c_flavor c) ->
  is_finite (fst (wetPath (J := wireJuce) c (Fin 176400) wireProcessor
                    (Fin x))).
Proof.
  intros Hf. rewrite wetPath_output. cbv zeta.
  change (overdrive wireProcessor) with Overdrive.init.
  destruct (wire_overdrive_finite x) as [v ->].
  pose proof (wire_distortion_finite v) as Hd.
  pose proof (wire_wavefolder_finite v) as Hw.
  destruct (fst (Distortion.processSample (dist wireProcessor) (Fin v)));
    try contradiction.
  destruct (Wavefolder.processSample (fold wireProcessor) (Fin v));
    try contradiction.
  destruct (c_flavor c); try contradiction.
  simpl. exact I.
Qed.

Lemma processBlock_per_sample_pipeline_witness :
  (0 < 2)%nat
  /\ nth_error [[Fin 1; Fin 0]; [Fin 0]] 0 = Some [Fin 1; Fin 0]
  /\ nth_error [Fin 1; Fin 0] 1 = Some (Fin 0)
  /\ (let pk := snd (processChannels (J := wireJuce) defaultControls
                       (Fin 176400) 0 wireProcessor
                       [[Fin 1; Fin 0]; [Fin 0]]) in
      let pki := snd (processSamples defaultControls (Fin 176400) pk
                        (firstn 1 [Fin 1; Fin 0])) in
      exists ch',
        nth_error (fst (processChannels defaultControls (Fin 176400) 2
                          wireProcessor [[Fin 1; Fin 0]; [Fin 0]])) 0
        = Some ch'
        /\ nth_error ch' 1
           = Some (Spec.perSample (fun s => (s * preGain)%fp)
                     defaultControls (Fin 176400) pki (Fin 0))).
Proof.
  split; [lia | split; [reflexivity | split; [reflexivity |]]].
  apply (processBlock_per_sample_pipeline (J := wireJuce) defaultControls
           (Fin 176400) 2 wireProcessor [[Fin 1; Fin 0]; [Fin 0]] 0 1
           [Fin 1; Fin 0] (Fin 0)).
  - lia.
  - reflexivity.
  - reflexivity.
Defined.

Lemma dryWet_boundaries_witness :
  (c_drywet (withDryWet (Fin 0) defaultControls) = Fin 0
   /\ is_finite (fst (wetPath (J := wireJuce)
                        (withDryWet (Fin 0) defaultControls)
                        (Fin 176400) wireProcessor (Fin 1)))
   /\ fst (processOne (J := wireJuce) (withDryWet (Fin 0) defaultControls)
             (Fin 176400) wireProcessor (Fin 1))
      = ftanh (Fin 1 * c_outputGain (withDryWet (Fin 0) defaultControls))%fp)
  /\ (c_drywet (withDryWet (Fin 1) defaultControls) = Fin 1
      /\ is_finite (Fin 1)
      /\ fst (processOne (J := wireJuce) (withDryWet (Fin 1) defaultControls)
                (Fin 176400) wireProcessor (Fin 1))
         = ftanh (fst (wetPath (J := wireJuce)
                         (withDryWet (Fin 1) defaultControls)
                         (Fin 176400) wireProcessor (Fin 1))
                  * c_outputGain (withDryWet (Fin 1) defaultControls))%fp).
Proof.
  split.
  - pose proof (wire_wetPath_finite (withDryWet (Fin 0) defaultControls) 1 I)
      as Hfin.
    split; [reflexivity | split; [exact Hfin |]].
    exact (proj1 (dryWet_boundaries (J := wireJuce)
                    (withDryWet (Fin 0) defaultControls) (Fin 176400)
                    wireProcessor (Fin 1)) eq_refl Hfin).
  - split; [reflexivity | split; [exact I |]].
    exact (proj2 (dryWet_boundaries (J := wireJuce)
                    (withDryWet (Fin 1) defaultControls) (Fin 176400)
                    wireProcessor (Fin 1)) eq_refl I).
Defined.

(** C3, as stated, fails.  Dry/wet 0, every other control at its default
    (output gain 1), input sample 1.0: the output is tanh 1, below 0.9. *)
Lemma dryWet_zero_output_differs_from_input :
  fst (processOne (J := wireJuce) (withDryWet (Fin 0) defaultControls)
         (Fin 176400) wireProcessor (Fin 1))
  = Fin (tanh 1)
  /\ tanh 1 < 9 / 10.
Proof.
  split; [| exact tanh_1_bound].
  rewrite processOne_output.
  change (c_drywet (withDryWet (Fin 0) defaultControls)) with (Fin 0).
  rewrite mixOutput_dry
    by (apply (wire_wetPath_finite (withDryWet (Fin 0) defaultControls) 1);
        exact I).
  simpl. now rewrite Rmult_1_l.
Qed.

Lemma flavor_boundaries_witness :
  let od := fst (overdriveSample (overdrive wireProcessor) (Fin 1)
                   (Fin 176400)) in
  let ds := fst (Distortion.processSample (dist wireProcessor) od) in
  let fs := Wavefolder.processSample (fold wireProcessor) od in
  (c_flavor (withFlavor (Fin 0) defaultControls) = Fin 0
   /\ is_finite fs
   /\ flavorBlend (c_flavor (withFlavor (Fin 0) defaultControls)) od ds fs
      = (od + ds)%fp
   /\ fst (wetPath (J := wireJuce) (withFlavor (Fin 0) defaultControls)
             (Fin 176400) wireProcessor (Fin 1))
      = fst (ToneProcessor.processSample (toneProcessor wireProcessor)
               (od + ds)%fp))
  /\ (c_flavor (withFlavor (Fin 1) defaultControls) = Fin 1
      /\ is_finite ds
      /\ flavorBlend (c_flavor (withFlavor (Fin 1) defaultControls)) od ds fs
         = (od + fs)%fp
      /\ fst (wetPath (J := wireJuce) (withFlavor (Fin 1) defaultControls)
                (Fin 176400) wireProcessor (Fin 1))
         = fst (ToneProcessor.processSample (toneProcessor wireProcessor)
                  (od + fs)%fp)).
Proof.
  cbv zeta.
  assert (Hfs : is_finite
                  (Wavefolder.processSample (fold wireProcessor)
                     (fst (overdriveSample (overdrive wireProcessor) (Fin 1)
                             (Fin 176400))))).
  { change (overdrive wireProcessor) with Overdrive.init.
    destruct (wire_overdrive_finite 1) as [v ->].
    apply wire_wavefolder_finite. }
  assert (Hds : is_finite
                  (fst (Distortion.processSample (dist wireProcessor)
                          (fst (overdriveSample (overdrive wireProcessor)
                                  (Fin 1) (Fin 176400)))))).
  { change (overdrive wireProcessor) with Overdrive.init.
    destruct (wire_overdrive_finite 1) as [v ->].
    apply wire_distortion_finite. }
  split.
  - split; [reflexivity | split; [exact Hfs |]].
    exact (proj1 (flavor_boundaries (J := wireJuce)
                    (withFlavor (Fin 0) defaultControls) (Fin 176400)
                    wireProcessor (Fin 1)) eq_refl Hfs).
  - split; [reflexivity | split; [exact Hds |]].
    exact (proj2 (flavor_boundaries (J := wireJuce)
                    (withFlavor (Fin 1) defaultControls) (Fin 176400)
                    wireProcessor (Fin 1)) eq_refl Hds).
Defined.

(** C2, as stated, fails.  A drive of 20 (declared range 0 to 10) reaches
    the overdrive as 20. *)
Lemma drive_reaches_overdrive_unclamped :
  Overdrive.drive
    (overdrive (updateModules (J := wireJuce)
                  (withDrive (Fin 20) defaultControls) wireProcessor))
  = Fin 20
  /\ c_drive (clampToDeclaredRange (withDrive (Fin 20) defaultControls))
     = Fin 10
  /\ ~ in_range 0 10
         (Overdrive.drive
            (overdrive (updateModules (J := wireJuce)
                          (withDrive (Fin 20) defaultControls)
                          wireProcessor))).
Proof.
  split; [reflexivity | split].
  - cbn [clampToDeclaredRange withDrive c_drive]. unfold jlimit.
    rewrite flt_fin_false by lra. rewrite flt_fin_true by lra. reflexivity.
  - cbn. lra.
Qed.

(** C4 on a concrete run.  The fresh processor after [prepareToPlay] has a
    silent overdrive smoother.  After one sample of full scale has gone
    through the loop body, [prepareToPlay] leaves the smoother where that
    sample put it, and the overdrive answers the same next input sample
    differently. *)
Lemma prepareToPlay_after_audio_differs :
  let p1 := snd (processOne (J := wireJuce) defaultControls (Fin 176400)
                   wireProcessor (Fin 1)) in
  let fresh := prepareToPlay (J := wireJuce) (Fin 44100) 512 wireProcessor in
  let again := prepareToPlay (J := wireJuce) (Fin 44100) 512 p1 in
  Overdrive.prevY (overdrive fresh) = Fin 0
  /\ Overdrive.prevY (overdrive again) <> Fin 0
  /\ fst (overdriveSample (overdrive again) (Fin 1) (Fin 176400))
     <> fst (overdriveSample (overdrive fresh) (Fin 1) (Fin 176400)).
Proof.
  cbv zeta.
  destruct fresh_overdrive_sample as [a [[Ha0 Ha1] Heq]].
  assert (Htone : jlimit (Fin 0) (Fin 1) (Fin (1 / 2)) = Fin (1 / 2))
    by (apply jlimit_fin; lra).
  assert (HT : 0 < tanh (1 * (6 / 10) * 2)).
  { rewrite <- tanh_0. apply tanh_increasing. lra. }
  assert (Hp1 : Overdrive.prevY
                  (overdrive
                     (snd (processOne (J := wireJuce) defaultControls
                             (Fin 176400) wireProcessor (Fin 1))))
                = Fin (0 + a * (tanh (1 * (6 / 10) * 2) - 0))).
  { rewrite processOne_overdrive. unfold overdriveSample.
    rewrite Overdrive_prevY_is_output.
    unfold preGain. simpl fmul.
    change (overdrive wireProcessor) with Overdrive.init.
    unfold Overdrive.init. apply Heq. }
  split; [reflexivity | split].
  - cbn [prepareToPlay withSimpleComp withStages withOversampler overdrive].
    unfold Overdrive.setTone, Overdrive.setDrive.
    cbn [Overdrive.drive Overdrive.tone Overdrive.prevY].
    rewrite Hp1. intros H. injection H as H. nra.
  - unfold overdriveSample, preGain.
    cbn [prepareToPlay withSimpleComp withStages withOversampler overdrive
         Overdrive.setTone Overdrive.setDrive Overdrive.prevY
         Overdrive.drive Overdrive.tone].
    unfold Overdrive.setTone, Overdrive.setDrive.
    cbn [Overdrive.drive Overdrive.tone Overdrive.prevY].
    rewrite Htone, Hp1. simpl fmul.
    change (Overdrive.prevY (overdrive wireProcessor)) with (Fin 0).
    rewrite !Heq.
    intros H. injection H as H.
    set (T := tanh (1 * (6 / 10) * 2)) in *.
    assert (Hpos : 0 < a * T * (1 - a)).
    { apply Rmult_lt_0_compat; [apply Rmult_lt_0_compat |]; lra. }
    lra.
Qed.

(** On the fresh processor with wire filters, fully wet and fold branch
    only, the output sample is [tanh (2 * od)]. *)
Lemma wire_perSample_wet_fold (odInput : fp -> fp) (x v : R) :
  fst (Overdrive.processSample Overdrive.init (odInput (Fin x)) (Fin 176400))
  = Fin v ->
  Spec.perSample (J := wireJuce) odInput wetFoldControls (Fin 176400)
    wireProcessor (Fin x)
  = Fin (tanh (2 * v)).
Proof.
  intros Hv. unfold Spec.perSample. cbv zeta.
  change (overdrive wireProcessor) with Overdrive.init. rewrite Hv.
  change (c_flavor wetFoldControls) with (Fin 1).
  change (c_drywet wetFoldControls) with (Fin 1).
  change (c_outputGain wetFoldControls) with (Fin 1).
  rewrite fsin_halfPi, fsqrt_1, fsub_1_1.
  pose proof (wire_distortion_finite v) as Hd.
  destruct (fst (Distortion.processSample (dist wireProcessor) (Fin v)))
    as [dv | | |]; try contradiction.
  simpl. do 2 f_equal. lra.
Qed.

(** Fresh processor, wire filters, fully wet, fold branch only, input
    sample 1.0: the sample the loop body writes is not the one the eight
    steps give when the overdrive is fed the input sample itself. *)
Lemma wire_output_differs :
  fst (processOne (J := wireJuce) wetFoldControls (Fin 176400) wireProcessor
         (Fin 1))
  <> Spec.perSample (J := wireJuce) (fun s => s) wetFoldControls
       (Fin 176400) wireProcessor (Fin 1).
Proof.
  destruct fresh_overdrive_sample as [a [[Ha0 Ha1] Heq]].
  rewrite processOne_spec.
  rewrite (wire_perSample_wet_fold (fun s => (s * preGain)%fp) 1
             (0 + a * (tanh (1 * (6 / 10) * 2) - 0)))
    by (unfold preGain, Overdrive.init; simpl fmul; apply Heq).
  rewrite (wire_perSample_wet_fold (fun s => s) 1
             (0 + a * (tanh (1 * 2) - 0)))
    by (unfold Overdrive.init; apply Heq).
  intros H. injection H as H. apply tanh_injective in H.
  assert (Ht : tanh (1 * (6 / 10) * 2) = tanh (1 * 2)) by nra.
  apply tanh_injective in Ht. lra.
Qed.

(** C1, as stated, fails: the overdrive is not given the input sample.
    At input sample 1.0 both the overdrive sample and (with wire filters,
    fully wet, fold branch only) the output sample differ from what the
    eight steps give on the unscaled input. *)
Lemma unscaled_overdrive_input_refuted :
  fst (overdriveSample Overdrive.init (Fin 1) (Fin 176400))
  <> fst (Overdrive.processSample Overdrive.init (Fin 1) (Fin 176400))
  /\ fst (processOne (J := wireJuce) wetFoldControls (Fin 176400)
            wireProcessor (Fin 1))
     <> Spec.perSample (J := wireJuce) (fun s => s) wetFoldControls
          (Fin 176400) wireProcessor (Fin 1).
Proof.
  split; [exact overdrive_sample_differs | exact wire_output_differs].
Qed.

(* ================================================================== *)
(** * Further properties of the stages *)

(** ** More facts about [tanh] and powers *)

Lemma tanh_neg (x : R) : tanh (- x) = - tanh x.
Proof.
  unfold tanh, sinh, cosh. rewrite Ropp_involutive.
  pose proof (exp_pos x). pose proof (exp_pos (- x)).
  field. lra.
Qed.

Lemma tanh_gt_m1 (x : R) : -1 < tanh x.
Proof.
  pose proof (tanh_lt_1 (- x)) as H. rewrite tanh_neg in H. lra.
Qed.


Lemma Rabs_le_bounds (a b : R) : Rabs a <= b -> - b <= a <= b.
Proof. unfold Rabs. destruct (Rcase_abs a); lra. Qed.

Lemma Int_part_2 : Int_part 2 = 2%Z.
Proof. symmetry. apply Int_part_spec. lra. Qed.

Lemma Rpower_2 (x : R) : 0 < x -> Rpower x 2 = x * x.
Proof.
  intros Hx. replace 2 with (1 + 1) by lra.
  rewrite Rpower_plus, Rpower_1 by assumption. reflexivity.
Qed.

(** [pow (d, 2)] is the square, for every finite [d]. *)
Lemma pow_fin_square (d : R) : pow_fin d 2 = Fin (d * d).
Proof.
  unfold pow_fin.
  destruct (Req_dec_T 2 0); [lra|].
  destruct (Rlt_dec 0 d) as [Hpos | Hnpos].
  - now rewrite Rpower_2.
  - destruct (Req_dec_T d 0) as [-> | Hne].
    + destruct (Rlt_dec 0 2); [| lra]. f_equal. lra.
    + unfold is_integer. rewrite Int_part_2.
      destruct (Req_dec_T 2 (IZR 2)); [| lra]. simpl.
      rewrite Rpower_2 by lra. f_equal. lra.
Qed.

Lemma ftanh_clipped (v : fp) : clippedOrNaN (ftanh v).
Proof.
  destruct v as [r | | |]; simpl.
  - right. simpl. pose proof (tanh_lt_1 r). pose proof (tanh_gt_m1 r). lra.
  - right. simpl. lra.
  - right. simpl. lra.
  - left. reflexivity.
Qed.

(* ------------------------------------------------------------------ *)
(** ** Overdrive *)

Lemma overdriveAlpha_range (t r : R) :
  0 <= t -> 0 < r -> 0 < overdriveAlpha t r < 1.
Proof.
  intros Ht Hr. unfold overdriveAlpha.
  pose proof PI_RGT_0 as Hpi.
  assert (Hden : 0 < 2 * PI * (200 + t * 8000)) by nra.
  assert (HRC : 0 < 1 / (2 * PI * (200 + t * 8000)))
    by (apply Rdiv_lt_0_compat; lra).
  assert (Hdt : 0 < 1 / r) by (apply Rdiv_lt_0_compat; lra).
  set (RC := 1 / (2 * PI * (200 + t * 8000))) in *.
  clearbody RC. set (dt := 1 / r) in *. clearbody dt.
  split.
  - apply Rdiv_lt_0_compat; lra.
  - apply Rmult_lt_reg_r with (r := RC + dt); [lra|].
    replace (dt / (RC + dt) * (RC + dt)) with dt by (field; lra). lra.
Qed.

(** The stage on finite values, in closed form. *)
Lemma Overdrive_processSample_closed (o : Overdrive.t) (d t y x r : R) :
  Overdrive.drive o = Fin d -> Overdrive.tone o = Fin t ->
  Overdrive.prevY o = Fin y -> 0 <= t -> 0 < r ->
  fst (Overdrive.processSample o (Fin x) (Fin r))
  = Fin (y + overdriveAlpha t r * (tanh (x * (1 + d * d)) - y)).
Proof.
  intros Hd Ht Hy Ht0 Hr.
  pose proof PI_RGT_0 as Hpi.
  assert (Hden : 0 < 2 * PI * (200 + t * 8000)) by nra.
  assert (HRC : 0 < 1 / (2 * PI * (200 + t * 8000)))
    by (apply Rdiv_lt_0_compat; lra).
  assert (Hdt : 0 < 1 / r) by (apply Rdiv_lt_0_compat; lra).
  unfold Overdrive.processSample, pi_f, overdriveAlpha.
  rewrite Hd, Ht, Hy. cbn [fst].
  simpl fpow. rewrite pow_fin_square.
  simpl.
  destruct (Req_dec_T r 0) as [Hr0 | _]; [lra|].
  destruct (Req_dec_T (2 * PI * (200 + t * 8000)) 0) as [Hc0 | _]; [lra|].
  simpl.
  destruct (Req_dec_T (1 / (2 * PI * (200 + t * 8000)) + 1 / r) 0)
    as [Hs0 | _]; [lra|].
  reflexivity.
Qed.

(** X1.  The overdrive keeps its state in [-1, 1]: with the drive in its
    declared range 0 to 10 (so that its square cannot overflow), the tone
    in [0, 1], a sample rate of at least 1 Hz and a finite input sample, a
    smoother state of magnitude at most 1 gives an output (and new state)
    of magnitude at most 1. *)
Theorem Overdrive_output_bounded (o : Overdrive.t) (d t y x r : R) :
  Overdrive.drive o = Fin d -> Overdrive.tone o = Fin t ->
  Overdrive.prevY o = Fin y ->
  0 <= d <= 10 -> 0 <= t <= 1 -> 1 <= r -> Rabs y <= 1 ->
  exists v,
    fst (Overdrive.processSample o (Fin x) (Fin r)) = Fin v
    /\ Overdrive.prevY (snd (Overdrive.processSample o (Fin x) (Fin r)))
       = Fin v
    /\ Rabs v <= 1.
Proof.
  intros Hd Ht Hy Hd0 [Ht0 Ht1] Hr1 Hb.
  assert (Hr : 0 < r) by lra.
  pose proof (Overdrive_processSample_closed o d t y x r Hd Ht Hy Ht0 Hr)
    as Heq.
  destruct (overdriveAlpha_range t r Ht0 Hr) as [Ha0 Ha1].
  set (a := overdriveAlpha t r) in *.
  set (T := tanh (x * (1 + d * d))) in *.
  pose proof (tanh_lt_1 (x * (1 + d * d))) as HT1.
  pose proof (tanh_gt_m1 (x * (1 + d * d))) as HT2. fold T in HT1, HT2.
  exists (y + a * (T - y)). split; [exact Heq | split].
  - rewrite Overdrive_prevY_is_output. exact Heq.
  - apply Rabs_le_bounds in Hb. left. apply Rabs_def1; nra.
Qed.

Lemma Overdrive_output_bounded_witness :
  (0 <= 1 <= 10 /\ 0 <= 1 / 2 <= 1 /\ 1 <= 176400 /\ Rabs 0 <= 1)
  /\ exists v,
       fst (Overdrive.processSample Overdrive.init (Fin 3) (Fin 176400))
       = Fin v
       /\ Overdrive.prevY
            (snd (Overdrive.processSample Overdrive.init (Fin 3)
                    (Fin 176400)))
          = Fin v
       /\ Rabs v <= 1.
Proof.
  assert (Hd : 0 <= 1 <= 10) by lra.
  assert (Ht : 0 <= 1 / 2 <= 1) by lra.
  assert (Hr : 1 <= 176400) by lra.
  assert (Hy : Rabs 0 <= 1) by (rewrite Rabs_R0; lra).
  split; [repeat split; first [apply Hd | apply Ht | apply Hr | apply Hy] |].
  exact (Overdrive_output_bounded Overdrive.init 1 (1 / 2) 0 3 176400
           eq_refl eq_refl eq_refl Hd Ht Hr Hy).
Defined.

(** X2.  The overdrive's low-pass is a one-pole smoother: with the drive
    in its declared range 0 to 10, the tone in [0, 1] and a sample rate of
    at least 1 Hz, each sample moves the state the fraction [alpha] of the
    way to the clipped input [tanh (x * (1 + drive^2))], with
    [0 < alpha < 1], so it never overshoots and the distance to the target
    shrinks by [1 - alpha]. *)
Theorem Overdrive_smoother_step (o : Overdrive.t) (d t y x r : R) :
  Overdrive.drive o = Fin d -> Overdrive.tone o = Fin t ->
  Overdrive.prevY o = Fin y ->
  0 <= d <= 10 -> 0 <= t <= 1 -> 1 <= r ->
  let target := tanh (x * (1 + d * d)) in
  let a := overdriveAlpha t r in
  exists v,
    fst (Overdrive.processSample o (Fin x) (Fin r)) = Fin v
    /\ 0 < a < 1
    /\ v - target = (1 - a) * (y - target)
    /\ Rabs (v - target) <= Rabs (y - target).
Proof.
  intros Hd Ht Hy Hd0 [Ht0 Ht1] Hr1. cbv zeta.
  assert (Hr : 0 < r) by lra.
  pose proof (Overdrive_processSample_closed o d t y x r Hd Ht Hy Ht0 Hr)
    as Heq.
  pose proof (overdriveAlpha_range t r Ht0 Hr) as Ha.
  eexists. split; [exact Heq | split; [exact Ha | split]].
  - ring.
  - replace (y + overdriveAlpha t r * (tanh (x * (1 + d * d)) - y)
             - tanh (x * (1 + d * d)))
      with ((1 - overdriveAlpha t r) * (y - tanh (x * (1 + d * d))))
      by ring.
    rewrite Rabs_mult. rewrite (Rabs_pos_eq (1 - overdriveAlpha t r)) by lra.
    pose proof (Rabs_pos (y - tanh (x * (1 + d * d)))). nra.
Qed.

Lemma Overdrive_smoother_step_witness :
  (0 <= 1 <= 10 /\ 0 <= 1 / 2 <= 1 /\ 1 <= 176400)
  /\ (let target := tanh (3 * (1 + 1 * 1)) in
      let a := overdriveAlpha (1 / 2) 176400 in
      exists v,
        fst (Overdrive.processSample Overdrive.init (Fin 3) (Fin 176400))
        = Fin v
        /\ 0 < a < 1
        /\ v - target = (1 - a) * (0 - target)
        /\ Rabs (v - target) <= Rabs (0 - target)).
Proof.
  assert (Hd : 0 <= 1 <= 10) by lra.
  assert (Ht : 0 <= 1 / 2 <= 1) by lra.
  assert (Hr : 1 <= 176400) by lra.
  split; [repeat split; first [apply Hd | apply Ht | apply Hr] |].
  exact (Overdrive_smoother_step Overdrive.init 1 (1 / 2) 0 3 176400
           eq_refl eq_refl eq_refl Hd Ht Hr).
Defined.

(** X3.  "tone=0 darker, tone=1 brighter": at a fixed sample rate the
    smoothing coefficient grows strictly with the tone, so a higher tone
    lets the state follow the input faster. *)
Theorem overdriveAlpha_increasing_in_tone (t1 t2 r : R) :
  0 <= t1 -> t1 < t2 -> 0 < r ->
  overdriveAlpha t1 r < overdriveAlpha t2 r.
Proof.
  intros H1 H12 Hr. unfold overdriveAlpha.
  pose proof PI_RGT_0 as Hpi.
  assert (Hc1 : 0 < 2 * PI * (200 + t1 * 8000)) by nra.
  assert (Hc2 : 0 < 2 * PI * (200 + t2 * 8000)) by nra.
  assert (Hc12 : 2 * PI * (200 + t1 * 8000) < 2 * PI * (200 + t2 * 8000))
    by nra.
  set (c1 := 2 * PI * (200 + t1 * 8000)) in *.
  set (c2 := 2 * PI * (200 + t2 * 8000)) in *.
  clearbody c1 c2.
  assert (Hdt : 0 < 1 / r) by (apply Rdiv_lt_0_compat; lra).
  set (dt := 1 / r) in *. clearbody dt.
  assert (HRC : 1 / c2 < 1 / c1).
  { unfold Rdiv. rewrite !Rmult_1_l. apply Rinv_lt_contravar; nra. }
  assert (HRC2 : 0 < 1 / c2) by (apply Rdiv_lt_0_compat; lra).
  set (R1 := 1 / c1) in *. set (R2 := 1 / c2) in *. clearbody R1 R2.
  apply Rmult_lt_reg_r with (r := (R1 + dt) * (R2 + dt)); [nra|].
  replace (dt / (R1 + dt) * ((R1 + dt) * (R2 + dt))) with (dt * (R2 + dt))
    by (field; lra).
  replace (dt / (R2 + dt) * ((R1 + dt) * (R2 + dt))) with (dt * (R1 + dt))
    by (field; lra).
  nra.
Qed.

Lemma overdriveAlpha_increasing_in_tone_witness :
  overdriveAlpha 0 176400 < overdriveAlpha 1 176400.
Proof.
  apply (overdriveAlpha_increasing_in_tone 0 1 176400); lra.
Defined.

(* ------------------------------------------------------------------ *)
(** ** Wavefolder *)

Lemma Wavefolder_processSample_closed (d x : R) :
  Wavefolder.processSample {| Wavefolder.depth := Fin d |} (Fin x)
  = Fin (x * (1 - d) + tanh (sin (x * (1 + d * 9) * (PI / 2))) * d).
Proof. simpl. reflexivity. Qed.

Lemma is_integer_three_halves : is_integer (3 / 2) = false.
Proof.
  unfold is_integer.
  destruct (Req_dec_T (3 / 2) (IZR (Int_part (3 / 2)))) as [e | ne];
    [exfalso | reflexivity].
  set (z := Int_part (3 / 2)) in e.
  assert (H : IZR 3 = IZR (2 * z)) by (rewrite mult_IZR; lra).
  apply eq_IZR in H. lia.
Qed.

Lemma Rpower_three_halves_le (d : R) :
  0 < d <= 1 -> 0 < Rpower d (3 / 2) <= d.
Proof.
  intros [H0 H1]. split; [apply Rpower_pos|].
  assert (Hln : ln d <= 0).
  { destruct H1 as [Hlt | ->]; [left; apply ln_neg; lra | rewrite ln_1; lra]. }
  unfold Rpower. rewrite <- (exp_ln d) at 2 by assumption.
  destruct (Req_dec_T (ln d) 0) as [e | ne].
  - rewrite e, Rmult_0_r. lra.
  - left. apply exp_increasing. lra.
Qed.

(** X4.  [setDepth] shapes the control by the power 1.5 before clamping:
    a control in [0, 1] gives a depth between 0 and the control itself, a
    control of 1 or more gives depth 1, and a negative control gives NaN
    (the fractional power of a negative number), which the clamp lets
    through. *)
Theorem Wavefolder_setDepth_shaping (d : R) (w : Wavefolder.t) :
  (d < 0 -> Wavefolder.depth (Wavefolder.setDepth (Fin d) w) = NaN)
  /\ (0 <= d <= 1 ->
      exists s, Wavefolder.depth (Wavefolder.setDepth (Fin d) w) = Fin s
                /\ 0 <= s <= d)
  /\ (1 <= d -> Wavefolder.depth (Wavefolder.setDepth (Fin d) w) = Fin 1).
Proof.
  unfold Wavefolder.setDepth. cbn [Wavefolder.depth]. simpl fpow.
  split; [| split].
  - intros Hd. unfold pow_fin.
    destruct (Req_dec_T (3 / 2) 0); [lra|].
    destruct (Rlt_dec 0 d); [lra|].
    destruct (Req_dec_T d 0); [lra|].
    rewrite is_integer_three_halves. apply jlimit_nan.
  - intros [H0 H1]. destruct (Req_dec_T d 0) as [-> | Hne].
    + exists 0. rewrite pow_fin_zero by lra. split; [apply jlimit_fin|]; lra.
    + rewrite pow_fin_pos by lra.
      destruct (Rpower_three_halves_le d) as [Hp0 Hp1]; [lra|].
      exists (Rpower d (3 / 2)). split; [apply jlimit_fin|]; lra.
  - intros Hd. rewrite pow_fin_pos by lra.
    assert (Hp : 1 <= Rpower d (3 / 2)).
    { rewrite <- (Rpower_1_base (3 / 2)). apply Rle_Rpower_l; lra. }
    unfold jlimit. rewrite flt_fin_false by lra.
    destruct (Req_dec_T (Rpower d (3 / 2)) 1) as [-> | Hne].
    + now rewrite flt_fin_false by lra.
    + now rewrite flt_fin_true by lra.
Qed.

Lemma Wavefolder_setDepth_shaping_witness :
  (-1 < 0 /\ Wavefolder.depth (Wavefolder.setDepth (Fin (-1)) Wavefolder.init)
             = NaN)
  /\ (0 <= 1 / 2 <= 1
      /\ exists s, Wavefolder.depth
                     (Wavefolder.setDepth (Fin (1 / 2)) Wavefolder.init)
                   = Fin s
                   /\ 0 <= s <= 1 / 2)
  /\ (1 <= 3
      /\ Wavefolder.depth (Wavefolder.setDepth (Fin 3) Wavefolder.init)
         = Fin 1).
Proof.
  split; [| split].
  - split; [lra|].
    apply (proj1 (Wavefolder_setDepth_shaping (-1) Wavefolder.init)). lra.
  - split; [lra|].
    apply (proj1 (proj2 (Wavefolder_setDepth_shaping (1 / 2)
                           Wavefolder.init))). lra.
  - split; [lra|].
    apply (proj2 (proj2 (Wavefolder_setDepth_shaping 3 Wavefolder.init))).
    lra.
Defined.



(** X6.  The wavefolder is an odd function of its input: negating the
    sample negates the output, at every depth. *)
Theorem Wavefolder_odd (d x : R) :
  Wavefolder.processSample {| Wavefolder.depth := Fin d |} (Fin (- x))
  = fneg (Wavefolder.processSample {| Wavefolder.depth := Fin d |} (Fin x)).
Proof.
  rewrite !Wavefolder_processSample_closed. cbn [fneg]. f_equal.
  replace (- x * (1 + d * 9) * (PI / 2))
    with (- (x * (1 + d * 9) * (PI / 2))) by ring.
  rewrite sin_neg, tanh_neg. ring.
Qed.



(* ------------------------------------------------------------------ *)
(** ** What the final clips guarantee *)

Section Clipping.
Context {J : Juce}.

(** X8.  Whatever the filters do, a sample leaving the Distortion stage is
    a number in [-1, 1] or NaN: the stage ends in [tanh]. *)
Theorem Distortion_output_clipped (d : Distortion.t) (x : fp) :
  clippedOrNaN (fst (Distortion.processSample d x)).
Proof.
  unfold Distortion.processSample.
  destruct (Filter.processSample (fst (Distortion.filters d)) _) as [y1 f0].
  destruct (Filter.processSample (snd (Distortion.filters d)) y1) as [y2 f1].
  cbn [fst]. apply ftanh_clipped.
Qed.

Lemma processOne_clipped c rate (p : Processor) x :
  clippedOrNaN (fst (processOne c rate p x)).
Proof.
  rewrite processOne_output. unfold mixOutput. apply ftanh_clipped.
Qed.

Lemma processSamples_clipped c rate : forall xs (p : Processor),
  Forall clippedOrNaN (fst (processSamples c rate p xs)).
Proof.
  induction xs as [| x rest IH]; intros p; simpl; [constructor|].
  pose proof (processOne_clipped c rate p x) as Hx.
  destruct (processOne c rate p x) as [y p1].
  specialize (IH p1).
  destruct (processSamples c rate p1 rest) as [ys p2].
  constructor; assumption.
Qed.

(** X9.  Every sample the block loop writes, in every channel it visits,
    is a number in [-1, 1] or NaN, for all inputs, controls and stage
    states. *)
Theorem processChannels_output_clipped c rate : forall block n (p : Processor),
  Forall (Forall clippedOrNaN)
    (firstn n (fst (processChannels c rate n p block))).
Proof.
  induction block as [| ch rest IH]; intros n p.
  - destruct n; simpl; constructor.
  - destruct n as [| n']; [simpl; constructor|]. simpl.
    pose proof (processSamples_clipped c rate ch p) as Hch.
    destruct (processSamples c rate p ch) as [ch' p1].
    specialize (IH n' p1).
    destruct (processChannels c rate n' p1 rest) as [r p2].
    simpl. constructor; assumption.
Qed.

Lemma processOne_dist c rate (p : Processor) x :
  dist (snd (processOne c rate p x))
  = snd (Distortion.processSample (dist p)
           (fst (overdriveSample (overdrive p) x rate))).
Proof.
  unfold processOne, wetPath.
  destruct (overdriveSample (overdrive p) x rate) as [od o]. cbn [fst].
  destruct (Distortion.processSample (dist p) od) as [ds d].
  match goal with
  | |- context [ToneProcessor.processSample ?a ?b] =>
      destruct (ToneProcessor.processSample a b) as [fl tp]
  end.
  reflexivity.
Qed.

Lemma Distortion_silence (d : Distortion.t) (g f : R) :
  Distortion.preGain d = Fin g ->
  Distortion.fs d = Fin f -> 0 < f ->
  Distortion.postPrev d = Fin 0 ->
  fst (Filter.processSample (fst (Distortion.filters d)) (Fin 0)) = Fin 0 ->
  fst (Filter.processSample (snd (Distortion.filters d)) (Fin 0)) = Fin 0 ->
  fst (Distortion.processSample d (Fin 0)) = Fin 0
  /\ Distortion.postPrev (snd (Distortion.processSample d (Fin 0))) = Fin 0.
Proof.
  intros Hg Hf Hf0 Hpp H0 H1.
  unfold Distortion.processSample. rewrite Hg, Hf, Hpp.
  assert (Hpre : ftanh (Fin 0 * Fin g) = Fin 0).
  { simpl. rewrite Rmult_0_l, tanh_0. reflexivity. }
  rewrite Hpre.
  destruct (Filter.processSample (fst (Distortion.filters d)) (Fin 0))
    as [y1 f0'].
  cbn [fst] in H0. subst y1.
  destruct (Filter.processSample (snd (Distortion.filters d)) (Fin 0))
    as [y2 f1'].
  cbn [fst] in H1. subst y2.
  unfold Distortion.postCutoff, pi_f.
  assert (Halpha : exists al,
             fexp (- Fin 2 * Fin PI * Fin 10000 / Fin f)%fp = Fin al).
  { simpl. destruct (Req_dec_T f 0); [lra|]. simpl. eexists. reflexivity. }
  destruct Halpha as [al ->].
  assert (Hpost : (Fin 0 + (Fin 1 - Fin al) * (Fin 0 - Fin 0))%fp = Fin 0).
  { simpl. f_equal. ring. }
  rewrite Hpost. cbn [fst snd Distortion.postPrev].
  split; [| reflexivity]. simpl. now rewrite tanh_0.
Qed.

Lemma ToneProcessor_silence (tp : ToneProcessor.t) (b : R) :
  ToneProcessor.balance tp = Fin b ->
  fst (Filter.processSample (ToneProcessor.lowFilter tp) (Fin 0)) = Fin 0 ->
  fst (Filter.processSample (ToneProcessor.highFilter tp) (Fin 0)) = Fin 0 ->
  fst (ToneProcessor.processSample tp (Fin 0)) = Fin 0.
Proof.
  intros Hb Hl Hh. unfold ToneProcessor.processSample.
  destruct (Filter.processSample (ToneProcessor.lowFilter tp) (Fin 0))
    as [lo lf].
  cbn [fst] in Hl. subst lo.
  destruct (Filter.processSample (ToneProcessor.highFilter tp) (Fin 0))
    as [hi hf].
  cbn [fst] in Hh. subst hi.
  rewrite Hb. cbn [fst]. unfold jmap. simpl. f_equal. ring.
Qed.

(** X10.  Silence in, silence out.  With the two smoother accumulators at
    rest and the four filters answering 0 to 0, an input sample of 0 gives
    an output sample of 0 and leaves the accumulators at rest, for every
    setting within the declared ranges: drive and distortion pre-gain in
    [0, 10], tone, fold depth, balance, flavor and dry/wet in [0, 1],
    output gain in [0, 2], and sample rates of at least 1 Hz. *)
Theorem processOne_silence (c : Controls) (p : Processor)
    (d t r g f dp fl b w og : R) :
  Overdrive.drive (overdrive p) = Fin d -> 0 <= d <= 10 ->
  Overdrive.tone (overdrive p) = Fin t -> 0 <= t <= 1 ->
  Overdrive.prevY (overdrive p) = Fin 0 -> 1 <= r ->
  Distortion.preGain (dist p) = Fin g -> 0 <= g <= 10 ->
  Distortion.fs (dist p) = Fin f -> 1 <= f ->
  Distortion.postPrev (dist p) = Fin 0 ->
  fst (Filter.processSample (fst (Distortion.filters (dist p))) (Fin 0))
    = Fin 0 ->
  fst (Filter.processSample (snd (Distortion.filters (dist p))) (Fin 0))
    = Fin 0 ->
  Wavefolder.depth (fold p) = Fin dp -> 0 <= dp <= 1 ->
  ToneProcessor.balance (toneProcessor p) = Fin b -> 0 <= b <= 1 ->
  fst (Filter.processSample (ToneProcessor.lowFilter (toneProcessor p))
         (Fin 0)) = Fin 0 ->
  fst (Filter.processSample (ToneProcessor.highFilter (toneProcessor p))
         (Fin 0)) = Fin 0 ->
  c_flavor c = Fin fl -> 0 <= fl <= 1 ->
  c_drywet c = Fin w -> 0 <= w <= 1 ->
  c_outputGain c = Fin og -> 0 <= og <= 2 ->
  let r' := processOne c (Fin r) p (Fin 0) in
  fst r' = Fin 0
  /\ Overdrive.prevY (overdrive (snd r')) = Fin 0
  /\ Distortion.postPrev (dist (snd r')) = Fin 0.
Proof.
  intros Hd Hdr Ht [Ht0 Ht1] Hy Hr1 Hg Hgr Hf Hf1 Hpp Hf0z Hf1z Hdp Hdpr
    Hb Hbr Hlz Hhz Hfl Hflr Hw [Hw0 Hw1] Hog Hogr.
  assert (Hr : 0 < r) by lra.
  assert (Hf0 : 0 < f) by lra.
  cbv zeta.
  assert (Hod : fst (overdriveSample (overdrive p) (Fin 0) (Fin r)) = Fin 0).
  { unfold overdriveSample, preGain. simpl fmul.
    rewrite (Overdrive_processSample_closed (overdrive p) d t 0 _ r)
      by assumption.
    f_equal. replace (0 * (6 / 10) * (1 + d * d)) with 0 by ring.
    rewrite tanh_0. ring. }
  destruct (Distortion_silence (dist p) g f Hg Hf Hf0 Hpp Hf0z Hf1z)
    as [Hds Hdpost].
  split; [| split].
  - rewrite processOne_output, wetPath_output. cbv zeta.
    rewrite Hod, Hds.
    destruct (fold p) as [dpv]. cbn [Wavefolder.depth] in Hdp. subst dpv.
    rewrite Wavefolder_processSample_closed.
    assert (Hblend : flavorBlend (c_flavor c) (Fin 0) (Fin 0)
                       (Fin (0 * (1 - dp)
                             + tanh (sin (0 * (1 + dp * 9) * (PI / 2))) * dp))
                     = Fin 0).
    { unfold flavorBlend. rewrite Hfl. simpl. f_equal.
      replace (0 * (1 + dp * 9) * (PI / 2)) with 0 by ring.
      rewrite sin_0, tanh_0. ring. }
    rewrite Hblend.
    rewrite (ToneProcessor_silence (toneProcessor p) b Hb Hlz Hhz).
    unfold mixOutput. rewrite Hw, Hog. simpl fsqrt.
    destruct (Rlt_dec w 0); [lra|]. simpl. f_equal.
    replace ((0 * (1 + - sqrt w) + 0 * sqrt w) * og) with 0 by ring.
    apply tanh_0.
  - rewrite processOne_overdrive. unfold overdriveSample.
    rewrite Overdrive_prevY_is_output. exact Hod.
  - rewrite processOne_dist, Hod. exact Hdpost.
Qed.
End Clipping.

Lemma processOne_silence_witness :
  let r' := processOne (J := wireJuce) defaultControls (Fin 176400)
              wireProcessor (Fin 0) in
  fst r' = Fin 0
  /\ Overdrive.prevY (overdrive (snd r')) = Fin 0
  /\ Distortion.postPrev (dist (snd r')) = Fin 0.
Proof.
  apply (processOne_silence (J := wireJuce) defaultControls wireProcessor
           1 (1 / 2) 176400 1 44100 0 (1 / 2) (1 / 2) (1 / 2) 1);
    first [reflexivity | lra].
Defined.

(* ================================================================== *)
(** * Further properties of the processor *)

(** ** The cutoff the Distortion stage designs its filter for *)

Lemma cutoffHz_range (v : R) :
  0 <= v <= 1 -> in_range 100 8000 (cutoffHz (Fin v)).
Proof.
  intros [H0 H1].
  destruct (Req_dec_T v 0) as [-> | Hne0].
  { rewrite cutoffHz_0. simpl. lra. }
  destruct (Req_dec_T v 1) as [-> | Hne1].
  { rewrite cutoffHz_1. simpl. lra. }
  pose proof (cutoffHz_increasing 0 v ltac:(lra) ltac:(lra)) as Hlo.
  pose proof (cutoffHz_increasing v 1 ltac:(lra) ltac:(lra)) as Hhi.
  unfold fp_lt in Hlo, Hhi.
  rewrite cutoffHz_0 in Hlo. rewrite cutoffHz_1 in Hhi.
  rewrite cutoffHz_pos in * by lra.
  simpl in Hlo, Hhi. simpl.
  destruct (Rlt_dec 100 _) in Hlo; [| discriminate].
  destruct (Rlt_dec _ 8000) in Hhi; [| discriminate].
  lra.
Qed.

Section Settings.
Context {J : Juce}.

(** X11.  Whatever number the cutoff control holds, the frequency handed
    to the low-pass designer lies between 100 Hz and 8000 Hz; only a NaN
    control gets through the clamp. *)
Theorem Distortion_cutoff_range (value : fp) (d : Distortion.t) :
  let d' := Distortion.setCutoffSliderValue value d in
  (value = NaN \/ in_range 100 8000 (Distortion.cutoff d'))
  /\ Filter.coefficients (fst (Distortion.filters d'))
     = makeLowPass (Distortion.fs d) (Distortion.cutoff d')
         (Fin (707 / 1000))
  /\ Filter.coefficients (snd (Distortion.filters d'))
     = makeLowPass (Distortion.fs d) (Distortion.cutoff d')
         (Fin (707 / 1000)).
Proof.
  cbv zeta. split; [| split; reflexivity].
  cbn [Distortion.setCutoffSliderValue Distortion.updateFilter
       Distortion.cutoff].
  destruct (jlimit_in_range 0 1 value ltac:(lra)) as [Hnan | Hin];
    [left; exact Hnan | right].
  destruct (jlimit (Fin 0) (Fin 1) value) as [v | | |]; try contradiction.
  apply cutoffHz_range. exact Hin.
Qed.

(** X12.  The tone filter's drive modulation over the declared drive range
    0 to 10: the pivot moves from 1000 Hz to at most 2000 Hz and Q from
    0.707 to at most 1.207; the balance is the tone clamped to [0, 1]; the
    two shelf gains lie in [1, 2.5] and add up to 3.5; and the filters'
    delay elements are not touched. *)
Theorem ToneProcessor_setParameters_ranges (tp : ToneProcessor.t)
    (t d : R) :
  0 <= d <= 10 ->
  let tp' := ToneProcessor.setParameters (Fin t) (Fin d) tp in
  exists b pv qv gl gh,
    ToneProcessor.balance tp' = Fin b /\ 0 <= b <= 1
    /\ ToneProcessor.modulatedPivot tp' = Fin pv /\ 1000 <= pv <= 2000
    /\ ToneProcessor.modulatedQ tp' = Fin qv
    /\ 707 / 1000 <= qv <= 1207 / 1000
    /\ Filter.coefficients (ToneProcessor.lowFilter tp')
       = makeLowShelf (ToneProcessor.fs tp) (Fin pv) (Fin qv) (Fin gl)
    /\ Filter.coefficients (ToneProcessor.highFilter tp')
       = makeHighShelf (ToneProcessor.fs tp) (Fin pv) (Fin qv) (Fin gh)
    /\ 1 <= gl <= 5 / 2 /\ 1 <= gh <= 5 / 2 /\ gl + gh = 7 / 2
    /\ Filter.memory (ToneProcessor.lowFilter tp')
       = Filter.memory (ToneProcessor.lowFilter tp)
    /\ Filter.memory (ToneProcessor.highFilter tp')
       = Filter.memory (ToneProcessor.highFilter tp).
Proof.
  intros Hd. cbv zeta.
  destruct (jlimit_in_range 0 1 (Fin t) ltac:(lra)) as [Hnan | Hin];
    [discriminate|].
  unfold ToneProcessor.setParameters, ToneProcessor.updateCoefficients.
  cbn [ToneProcessor.balance ToneProcessor.modulatedPivot
       ToneProcessor.modulatedQ ToneProcessor.lowFilter
       ToneProcessor.highFilter ToneProcessor.fs Filter.setCoefficients
       Filter.coefficients Filter.memory].
  destruct (jlimit (Fin 0) (Fin 1) (Fin t)) as [b | | |]; try contradiction.
  simpl in Hin.
  exists b, (1000 + d * 100), (707 / 1000 + d * (5 / 100)),
    (1 + (1 + - b) * (3 / 2)), (1 + b * (3 / 2)).
  repeat split; try reflexivity; lra.
Qed.

(** X13.  The tone filter's output at the ends of the balance: with
    balance 0 it is the low-shelf filter's sample, with balance 1 the
    high-shelf filter's (both samples finite). *)
Theorem ToneProcessor_balance_boundaries (tp : ToneProcessor.t) (x : fp)
    (lo hi : R) :
  fst (Filter.processSample (ToneProcessor.lowFilter tp) x) = Fin lo ->
  fst (Filter.processSample (ToneProcessor.highFilter tp) x) = Fin hi ->
  (ToneProcessor.balance tp = Fin 0 ->
   fst (ToneProcessor.processSample tp x) = Fin lo)
  /\ (ToneProcessor.balance tp = Fin 1 ->
      fst (ToneProcessor.processSample tp x) = Fin hi).
Proof.
  intros Hl Hh. unfold ToneProcessor.processSample.
  destruct (Filter.processSample (ToneProcessor.lowFilter tp) x) as [l lf].
  destruct (Filter.processSample (ToneProcessor.highFilter tp) x) as [h hf].
  cbn [fst] in *. subst l h.
  split; intros ->; unfold jmap; simpl; f_equal; ring.
Qed.

(** X14.  The once-per-block parameter push overwrites every stage setting
    (pushing [c2] after [c1] is the same as pushing [c2] alone, so pushing
    the same controls twice changes nothing) and never touches signal
    state: smoother accumulators, filter delay elements, compressor and
    oversampler stay as they are. *)
Theorem updateModules_overwrites_settings_only (c1 c2 : Controls)
    (p : Processor) :
  updateModules c2 (updateModules c1 p) = updateModules c2 p
  /\ signalState (updateModules c1 p) = signalState p
  /\ hostSettings (updateModules c1 p) = hostSettings p.
Proof.
  split; [| split]; reflexivity.
Qed.
End Settings.

Lemma ToneProcessor_setParameters_ranges_witness :
  0 <= 10 <= 10
  /\ (let tp' := ToneProcessor.setParameters (J := wireJuce) (Fin (3 / 2))
                   (Fin 10) (toneProcessor wireProcessor) in
      exists b pv qv gl gh,
        ToneProcessor.balance tp' = Fin b /\ 0 <= b <= 1
        /\ ToneProcessor.modulatedPivot tp' = Fin pv /\ 1000 <= pv <= 2000
        /\ ToneProcessor.modulatedQ tp' = Fin qv
        /\ 707 / 1000 <= qv <= 1207 / 1000
        /\ Filter.coefficients (ToneProcessor.lowFilter tp')
           = makeLowShelf (ToneProcessor.fs (toneProcessor wireProcessor))
               (Fin pv) (Fin qv) (Fin gl)
        /\ Filter.coefficients (ToneProcessor.highFilter tp')
           = makeHighShelf (ToneProcessor.fs (toneProcessor wireProcessor))
               (Fin pv) (Fin qv) (Fin gh)
        /\ 1 <= gl <= 5 / 2 /\ 1 <= gh <= 5 / 2 /\ gl + gh = 7 / 2
        /\ Filter.memory (ToneProcessor.lowFilter tp')
           = Filter.memory (ToneProcessor.lowFilter
                              (toneProcessor wireProcessor))
        /\ Filter.memory (ToneProcessor.highFilter tp')
           = Filter.memory (ToneProcessor.highFilter
                              (toneProcessor wireProcessor))).
Proof.
  split; [lra|].
  apply (ToneProcessor_setParameters_ranges (J := wireJuce)
           (toneProcessor wireProcessor) (3 / 2) 10).
  lra.
Defined.

(** A low shelf at gain 2.5 and a flat high shelf on the sample 3: the
    low-shelf sample is 7.5 and the high-shelf sample 3; balance 0 gives
    the first, balance 1 the second. *)
Lemma ToneProcessor_balance_boundaries_witness :
  (fst (Filter.processSample
          (ToneProcessor.lowFilter (dcToneProcessor (Fin 0))) (Fin 3))
   = Fin (3 * (5 / 2))
   /\ fst (Filter.processSample
             (ToneProcessor.highFilter (dcToneProcessor (Fin 0))) (Fin 3))
      = Fin (3 * 1))
  /\ fst (ToneProcessor.processSample (dcToneProcessor (Fin 0)) (Fin 3))
     = Fin (3 * (5 / 2))
  /\ fst (ToneProcessor.processSample (dcToneProcessor (Fin 1)) (Fin 3))
     = Fin (3 * 1)
  /\ 3 * (5 / 2) <> 3 * 1.
Proof.
  split; [split; reflexivity |]. split; [| split].
  - exact (proj1 (ToneProcessor_balance_boundaries (J := dcJuce)
                    (dcToneProcessor (Fin 0)) (Fin 3) (3 * (5 / 2)) (3 * 1)
                    eq_refl eq_refl) eq_refl).
  - exact (proj2 (ToneProcessor_balance_boundaries (J := dcJuce)
                    (dcToneProcessor (Fin 1)) (Fin 3) (3 * (5 / 2)) (3 * 1)
                    eq_refl eq_refl) eq_refl).
  - lra.
Defined.

(* ------------------------------------------------------------------ *)
(** ** How the loops of [processBlock] compose *)

Section Loops.
Context {J : Juce}.

(** Running the sample loop over two runs of samples, one after the other
    with the state carried over, is running it once over both. *)
Lemma processSamples_append c rate : forall xs ys (p : Processor),
  processSamples c rate p (xs ++ ys)%list
  = ((fst (processSamples c rate p xs)
        ++ fst (processSamples c rate
                  (snd (processSamples c rate p xs)) ys))%list,
     snd (processSamples c rate (snd (processSamples c rate p xs)) ys)).
Proof.
  induction xs as [| x rest IH]; intros ys p.
  - simpl. now destruct (processSamples c rate p ys).
  - simpl. destruct (processOne c rate p x) as [y p1].
    rewrite IH.
    destruct (processSamples c rate p1 rest) as [zs p2]. reflexivity.
Qed.

Lemma processSamples_length c rate : forall xs (p : Processor),
  List.length (fst (processSamples c rate p xs)) = List.length xs.
Proof.
  induction xs as [| x rest IH]; intros p; simpl; [reflexivity|].
  destruct (processOne c rate p x) as [y p1].
  specialize (IH p1).
  destruct (processSamples c rate p1 rest) as [ys p2].
  simpl in *. now rewrite IH.
Qed.

(** X15.  The loop nest neither adds nor drops anything: the block keeps
    its number of channels, every channel keeps its number of samples, and
    the channels from index [n] on come out exactly as they went in. *)
Theorem processChannels_shape c rate : forall block n (p : Processor),
  map (@List.length fp) (fst (processChannels c rate n p block))
  = map (@List.length fp) block
  /\ skipn n (fst (processChannels c rate n p block)) = skipn n block.
Proof.
  induction block as [| ch rest IH]; intros n p.
  - destruct n; split; reflexivity.
  - destruct n as [| n']; [split; reflexivity|]. simpl.
    pose proof (processSamples_length c rate ch p) as Hlen.
    destruct (processSamples c rate p ch) as [ch' p1].
    destruct (IH n' p1) as [IH1 IH2].
    destruct (processChannels c rate n' p1 rest) as [r p2].
    simpl in *. split; [now rewrite Hlen, IH1 | exact IH2].
Qed.

(** X16.  The stages are shared by all channels: the loop nest over the
    first [n] channels produces the samples, and ends in the state, that
    the sample loop produces on those channels laid end to end.  The second
    channel starts from the state the first channel left behind. *)
Theorem processChannels_is_one_long_run c rate (block : AudioBlock)
    (n : nat) (p : Processor) :
  List.concat (firstn n (fst (processChannels c rate n p block)))
  = fst (processSamples c rate p (List.concat (firstn n block)))
  /\ snd (processChannels c rate n p block)
     = snd (processSamples c rate p (List.concat (firstn n block))).
Proof.
  revert n p.
  induction block as [| ch rest IH]; intros n p.
  - destruct n; split; reflexivity.
  - destruct n as [| n']; [split; reflexivity|]. simpl.
    rewrite processSamples_append.
    destruct (processSamples c rate p ch) as [ch' p1]. cbn [fst snd].
    destruct (IH n' p1) as [IH1 IH2].
    destruct (processChannels c rate n' p1 rest) as [r p2].
    cbn [fst snd] in *. simpl. split; [now rewrite IH1 | exact IH2].
Qed.

Lemma clearChannels_nth lo hi : forall buffer i k ch,
  nth_error buffer k = Some ch ->
  nth_error (clearChannels i lo hi buffer) k
  = Some (if (lo <=? i + k)%nat && (i + k <? hi)%nat
          then map (fun _ => Fin 0) ch else ch).
Proof.
  induction buffer as [| a rest IH]; intros i k ch Hk.
  - destruct k; discriminate.
  - destruct k as [| k'].
    + injection Hk as ->. simpl. now rewrite Nat.add_0_r.
    + simpl in Hk. simpl. rewrite (IH (S i) k' ch Hk).
      now replace (S i + k')%nat with (i + S k')%nat by lia.
Qed.

Lemma clearChannels_id lo hi : forall buffer i,
  (hi <= lo)%nat -> clearChannels i lo hi buffer = buffer.
Proof.
  induction buffer as [| a rest IH]; intros i Hle; simpl; [reflexivity|].
  rewrite IH by assumption.
  destruct (lo <=? i)%nat eqn:E1; destruct (i <? hi)%nat eqn:E2;
    simpl; try reflexivity.
  apply Nat.leb_le in E1. apply Nat.ltb_lt in E2. lia.
Qed.

(** X17.  The output channels that have no input are silenced, the others
    are left alone: channel [k] of the buffer is zero-filled, at its own
    length, exactly when [numInputs <= k < numOutputs]; with at least as
    many inputs as outputs the buffer is unchanged. *)
Theorem clearChannels_spec (numIn numOut : nat) (buffer : AudioBlock) :
  ((numOut <= numIn)%nat -> clearChannels 0 numIn numOut buffer = buffer)
  /\ List.length (clearChannels 0 numIn numOut buffer) = List.length buffer
  /\ (forall k ch,
        nth_error buffer k = Some ch ->
        nth_error (clearChannels 0 numIn numOut buffer) k
        = Some (if (numIn <=? k)%nat && (k <? numOut)%nat
                then repeat (Fin 0) (List.length ch) else ch)).
Proof.
  split; [apply clearChannels_id | split].
  - generalize 0%nat. induction buffer as [| a rest IH]; intros i; simpl;
      [reflexivity | now rewrite IH].
  - intros k ch Hk. rewrite (clearChannels_nth numIn numOut buffer 0 k ch Hk).
    simpl. f_equal.
    destruct ((numIn <=? k)%nat && (k <? numOut)%nat); [| reflexivity].
    clear. induction ch as [| a r IH]; simpl; [reflexivity | now rewrite IH].
Qed.

Lemma Filter_processSample_coefficients (f : Filter.t) (x : fp) :
  Filter.coefficients (snd (Filter.processSample f x))
  = Filter.coefficients f.
Proof.
  unfold Filter.processSample. now destruct (memory_step _ _ x).
Qed.

Lemma Distortion_processSample_settings (d : Distortion.t) (x : fp) :
  let d' := snd (Distortion.processSample d x) in
  Distortion.preGain d' = Distortion.preGain d
  /\ Distortion.sliderValue d' = Distortion.sliderValue d
  /\ Distortion.cutoff d' = Distortion.cutoff d
  /\ Distortion.fs d' = Distortion.fs d
  /\ Filter.coefficients (fst (Distortion.filters d'))
     = Filter.coefficients (fst (Distortion.filters d))
  /\ Filter.coefficients (snd (Distortion.filters d'))
     = Filter.coefficients (snd (Distortion.filters d)).
Proof.
  cbv zeta. unfold Distortion.processSample.
  pose proof (Filter_processSample_coefficients (fst (Distortion.filters d))
                (ftanh (x * Distortion.preGain d)%fp)) as H0.
  destruct (Filter.processSample (fst (Distortion.filters d)) _) as [y1 f0].
  pose proof (Filter_processSample_coefficients (snd (Distortion.filters d))
                y1) as H1.
  destruct (Filter.processSample (snd (Distortion.filters d)) y1) as [y2 f1].
  cbn [snd fst Distortion.preGain Distortion.sliderValue Distortion.cutoff
       Distortion.fs Distortion.filters] in *.
  repeat split; assumption || reflexivity.
Qed.

Lemma ToneProcessor_processSample_settings (tp : ToneProcessor.t) (x : fp) :
  let tp' := snd (ToneProcessor.processSample tp x) in
  ToneProcessor.fs tp' = ToneProcessor.fs tp
  /\ ToneProcessor.balance tp' = ToneProcessor.balance tp
  /\ ToneProcessor.modulatedPivot tp' = ToneProcessor.modulatedPivot tp
  /\ ToneProcessor.modulatedQ tp' = ToneProcessor.modulatedQ tp
  /\ Filter.coefficients (ToneProcessor.lowFilter tp')
     = Filter.coefficients (ToneProcessor.lowFilter tp)
  /\ Filter.coefficients (ToneProcessor.highFilter tp')
     = Filter.coefficients (ToneProcessor.highFilter tp).
Proof.
  cbv zeta. unfold ToneProcessor.processSample.
  pose proof (Filter_processSample_coefficients (ToneProcessor.lowFilter tp)
                x) as H0.
  destruct (Filter.processSample (ToneProcessor.lowFilter tp) x) as [lo lf].
  pose proof (Filter_processSample_coefficients (ToneProcessor.highFilter tp)
                x) as H1.
  destruct (Filter.processSample (ToneProcessor.highFilter tp) x) as [hi hf].
  cbn [snd fst ToneProcessor.fs ToneProcessor.balance
       ToneProcessor.modulatedPivot ToneProcessor.modulatedQ
       ToneProcessor.lowFilter ToneProcessor.highFilter] in *.
  repeat split; assumption || reflexivity.
Qed.

Lemma processOne_settings c rate (p : Processor) x :
  stageSettings (snd (processOne c rate p x)) = stageSettings p
  /\ hostSettings (snd (processOne c rate p x)) = hostSettings p.
Proof.
  assert (H : exists o d tp,
             snd (processOne c rate p x) = withStages p o d (fold p) tp
             /\ Overdrive.drive o = Overdrive.drive (overdrive p)
             /\ Overdrive.tone o = Overdrive.tone (overdrive p)
             /\ (exists od, d = snd (Distortion.processSample (dist p) od))
             /\ (exists b, tp = snd (ToneProcessor.processSample
                                       (toneProcessor p) b))).
  { unfold processOne, wetPath, overdriveSample.
    unfold Overdrive.processSample. cbv beta iota zeta.
    match goal with
    | |- context [Distortion.processSample (dist p) ?od] =>
        destruct (Distortion.processSample (dist p) od) as [ds d] eqn:HD
    end.
    match goal with
    | |- context [ToneProcessor.processSample (toneProcessor p) ?b] =>
        destruct (ToneProcessor.processSample (toneProcessor p) b)
          as [fl tp] eqn:HT
    end.
    do 3 eexists. split; [reflexivity |].
    split; [reflexivity | split; [reflexivity | split]].
    - eexists. rewrite HD. reflexivity.
    - eexists. rewrite HT. reflexivity. }
  destruct H as (o & d & tp & Hq & Ho1 & Ho2 & [od Hd] & [b Ht]).
  rewrite Hq. unfold stageSettings, hostSettings.
  cbn [withStages overdrive dist fold toneProcessor parameters
       currentPresetName getSampleRate getTotalNumInputChannels
       getTotalNumOutputChannels].
  destruct (Distortion_processSample_settings (dist p) od)
    as (HD1 & HD2 & HD3 & HD4 & HD5 & HD6).
  destruct (ToneProcessor_processSample_settings (toneProcessor p) b)
    as (HT1 & HT2 & HT3 & HT4 & HT5 & HT6).
  rewrite <- Hd in HD1, HD2, HD3, HD4, HD5, HD6.
  rewrite <- Ht in HT1, HT2, HT3, HT4, HT5, HT6.
  rewrite Ho1, Ho2.
  rewrite HD1, HD2, HD3, HD4, HD5, HD6, HT1, HT2, HT3, HT4, HT5, HT6.
  split; reflexivity.
Qed.

Lemma processSamples_settings c rate : forall xs (p : Processor),
  stageSettings (snd (processSamples c rate p xs)) = stageSettings p
  /\ hostSettings (snd (processSamples c rate p xs)) = hostSettings p.
Proof.
  induction xs as [| x rest IH]; intros p; simpl; [split; reflexivity|].
  pose proof (processOne_settings c rate p x) as [H1 H2].
  destruct (processOne c rate p x) as [y p1]. cbn [snd] in H1, H2.
  destruct (IH p1) as [H3 H4].
  destruct (processSamples c rate p1 rest) as [ys p2]. cbn [snd] in *.
  split; congruence.
Qed.

Lemma processChannels_settings c rate : forall block n (p : Processor),
  stageSettings (snd (processChannels c rate n p block)) = stageSettings p
  /\ hostSettings (snd (processChannels c rate n p block)) = hostSettings p.
Proof.
  induction block as [| ch rest IH]; intros n p.
  - destruct n; split; reflexivity.
  - destruct n as [| n']; [split; reflexivity|]. simpl.
    destruct (processSamples_settings c rate ch p) as [H1 H2].
    destruct (processSamples c rate p ch) as [ch' p1]. cbn [snd] in H1, H2.
    destruct (IH n' p1) as [H3 H4].
    destruct (processChannels c rate n' p1 rest) as [r p2].
    cbn [snd] in *. split; congruence.
Qed.

(** X18.  Processing a block changes signal state only.  After
    [processBlock] the stages' settings are exactly those pushed from the
    parameter values at its start, the stages' own sample-rate fields are
    the ones [prepare] left, and the parameter tree, the preset name and
    the host's sample rate and channel counts are untouched. *)
Theorem processBlock_settings (p : Processor) (buffer : AudioBlock) :
  stageSettings (snd (processBlock p buffer))
  = stageSettings (updateModules (readControls (parameters p)) p)
  /\ hostSettings (snd (processBlock p buffer)) = hostSettings p
  /\ Distortion.fs (dist (snd (processBlock p buffer)))
     = Distortion.fs (dist p)
  /\ ToneProcessor.fs (toneProcessor (snd (processBlock p buffer)))
     = ToneProcessor.fs (toneProcessor p).
Proof.
  assert (H : stageSettings (snd (processBlock p buffer))
              = stageSettings (updateModules (readControls (parameters p)) p)
              /\ hostSettings (snd (processBlock p buffer)) = hostSettings p).
  { unfold processBlock.
    destruct (os_processSamplesUp (oversampler p) _) as [up os].
    cbn [withOversampler parameters getSampleRate getTotalNumInputChannels
         oversampler].
    match goal with
    | |- context [processChannels ?a ?b ?n ?q ?bl] =>
        pose proof (processChannels_settings a b bl n q) as [H1 H2];
        destruct (processChannels a b n q bl) as [processed p2]
    end.
    cbn [snd] in H1, H2.
    destruct (os_processSamplesDown (oversampler p2) processed _)
      as [out os2].
    cbn [snd]. split.
    - transitivity (stageSettings p2); [reflexivity | exact H1].
    - transitivity (hostSettings p2); [reflexivity | exact H2]. }
  destruct H as [H1 H2]. split; [exact H1 | split; [exact H2 |]].
  unfold stageSettings in H1.
  split.
  - apply (f_equal (fun s => snd (fst (fst (snd (fst (fst s))))))) in H1.
    exact H1.
  - apply (f_equal (fun s => fst (fst (fst (fst (fst (snd s))))))) in H1.
    exact H1.
Qed.
End Loops.

Lemma clearChannels_spec_witness :
  ((2 <= 2)%nat
   /\ clearChannels 0 2 2 [[Fin 1; Fin 2]; [Fin 3; Fin 4]]
      = [[Fin 1; Fin 2]; [Fin 3; Fin 4]])
  /\ (nth_error [[Fin 1; Fin 2]; [Fin 3; Fin 4]] 1 = Some [Fin 3; Fin 4]
      /\ nth_error (clearChannels 0 1 2 [[Fin 1; Fin 2]; [Fin 3; Fin 4]]) 1
         = Some (if (1 <=? 1)%nat && (1 <? 2)%nat
                 then repeat (Fin 0) (List.length [Fin 3; Fin 4])
                 else [Fin 3; Fin 4])).
Proof.
  split.
  - split; [lia|].
    apply (proj1 (clearChannels_spec 2 2 [[Fin 1; Fin 2]; [Fin 3; Fin 4]])).
    lia.
  - split; [reflexivity|].
    apply (proj2 (proj2 (clearChannels_spec 1 2
                           [[Fin 1; Fin 2]; [Fin 3; Fin 4]]))).
    reflexivity.
Defined.

(* ================================================================== *)
(** * The compressor *)






(** X19.  The envelope follower stays between its previous value and the
    level of the new sample: with attack and release coefficients in
    [0, 1] the new envelope lies between [min (envelope, |x|)] and
    [max (envelope, |x|)], so it is never negative once it is not. *)
Theorem SimpleCompressor_envelope_bounds (c : SimpleCompressor.t)
    (a rl e x : R) :
  SimpleCompressor.attackCoeff c = Fin a -> 0 <= a <= 1 ->
  SimpleCompressor.releaseCoeff c = Fin rl -> 0 <= rl <= 1 ->
  SimpleCompressor.envelope c = Fin e ->
  exists e',
    SimpleCompressor.envelope
      (snd (SimpleCompressor.processSample c (Fin x))) = Fin e'
    /\ Rmin e (Rabs x) <= e' <= Rmax e (Rabs x).
Proof.
  intros Ha Ha01 Hrl Hrl01 He.
  unfold SimpleCompressor.processSample.
  cbn [snd SimpleCompressor.envelope]. rewrite Ha, Hrl, He. cbn [fabs flt].
  unfold Rmin, Rmax.
  destruct (Rlt_dec e (Rabs x)) as [Hlt | Hge]; simpl;
    eexists; (split; [reflexivity|]);
    destruct (Rle_dec e (Rabs x)); nra.
Qed.

Lemma SimpleCompressor_envelope_bounds_witness :
  exists e',
    SimpleCompressor.envelope
      (snd (SimpleCompressor.processSample (simpleComp wireProcessor)
              (Fin (1 / 2)))) = Fin e'
    /\ Rmin 0 (Rabs (1 / 2)) <= e' <= Rmax 0 (Rabs (1 / 2)).
Proof.
  apply (SimpleCompressor_envelope_bounds (simpleComp wireProcessor)
           0 0 0 (1 / 2)); try reflexivity; lra.
Defined.




(** X21.  [prepare] makes the follower well-formed: for positive attack
    and release times and a positive sample rate, the envelope is reset to
    0 and both smoothing coefficients are strictly between 0 and 1;
    threshold, ratio and knee are kept. *)
Theorem SimpleCompressor_prepare_coefficients (c : SimpleCompressor.t)
    (at_ rt fs : R) :
  SimpleCompressor.attackTime c = Fin at_ -> 0 < at_ ->
  SimpleCompressor.releaseTime c = Fin rt -> 0 < rt ->
  0 < fs ->
  let c' := SimpleCompressor.prepare (Fin fs) c in
  exists a rl,
    SimpleCompressor.attackCoeff c' = Fin a /\ 0 < a < 1
    /\ SimpleCompressor.releaseCoeff c' = Fin rl /\ 0 < rl < 1
    /\ SimpleCompressor.envelope c' = Fin 0
    /\ SimpleCompressor.threshold c' = SimpleCompressor.threshold c
    /\ SimpleCompressor.ratio c' = SimpleCompressor.ratio c
    /\ SimpleCompressor.knee c' = SimpleCompressor.knee c.
Proof.
  intros Hat Hat0 Hrt Hrt0 Hfs. cbv zeta.
  unfold SimpleCompressor.prepare.
  cbn [SimpleCompressor.attackCoeff SimpleCompressor.releaseCoeff
       SimpleCompressor.envelope SimpleCompressor.threshold
       SimpleCompressor.ratio SimpleCompressor.knee].
  rewrite Hat, Hrt.
  assert (Hexp : forall tm, 0 < tm ->
            exists v, fexp (- Fin 1 / (Fin tm * Fin fs))%fp = Fin v
                      /\ 0 < v < 1).
  { intros tm Htm. cbn [fneg fmul].
    assert (Hprod : 0 < tm * fs) by (apply Rmult_lt_0_compat; assumption).
    rewrite fdiv_fin by lra.
    cbn [fexp]. eexists. split; [reflexivity|].
    split; [apply exp_pos|].
    assert (Hinv : 0 < / (tm * fs)) by (apply Rinv_0_lt_compat; assumption).
    assert (Hlt : exp (- (1) / (tm * fs)) < exp 0).
    { apply exp_increasing. unfold Rdiv. lra. }
    rewrite exp_0 in Hlt. exact Hlt. }
  destruct (Hexp at_ Hat0) as [a [Ha Ha01]].
  destruct (Hexp rt Hrt0) as [rl [Hrl Hrl01]].
  exists a, rl. rewrite Ha, Hrl. repeat split; try reflexivity; lra.
Qed.

Lemma SimpleCompressor_prepare_coefficients_witness :
  let c' := SimpleCompressor.prepare (Fin 44100) (simpleComp wireProcessor) in
  exists a rl,
    SimpleCompressor.attackCoeff c' = Fin a /\ 0 < a < 1
    /\ SimpleCompressor.releaseCoeff c' = Fin rl /\ 0 < rl < 1
    /\ SimpleCompressor.envelope c' = Fin 0
    /\ SimpleCompressor.threshold c'
       = SimpleCompressor.threshold (simpleComp wireProcessor)
    /\ SimpleCompressor.ratio c'
       = SimpleCompressor.ratio (simpleComp wireProcessor)
    /\ SimpleCompressor.knee c'
       = SimpleCompressor.knee (simpleComp wireProcessor).
Proof.
  apply (SimpleCompressor_prepare_coefficients (simpleComp wireProcessor)
           (5 / 1000) (5 / 100) 44100); try reflexivity; lra.
Defined.

(* ================================================================== *)
(** * The parameters' percent conversions *)

Lemma truncZ_nonneg (r : R) :
  0 <= r -> IZR (truncZ r) <= r < IZR (truncZ r) + 1 /\ (0 <= truncZ r)%Z.
Proof.
  intros Hr. unfold truncZ. destruct (Rle_dec 0 r); [| lra].
  destruct (base_Int_part r) as [H1 H2].
  split; [lra|]. apply le_IZR. apply Rnot_lt_le. intros Hneg.
  assert (Hle : IZR (Int_part r) <= -1).
  { apply IZR_le. apply lt_IZR in Hneg. lia. }
  lra.
Qed.

Lemma truncZ_neg (r : R) :
  r < 0 -> r <= IZR (truncZ r) < r + 1 /\ (truncZ r <= 0)%Z.
Proof.
  intros Hr. unfold truncZ. destruct (Rle_dec 0 r); [lra|].
  destruct (base_Int_part (- r)) as [H1 H2].
  rewrite opp_IZR. split; [lra|].
  assert (Hge : (0 <= Int_part (- r))%Z).
  { apply le_IZR. apply Rnot_lt_le. intros Hneg.
    assert (Hle : IZR (Int_part (- r)) <= -1).
    { apply IZR_le. apply lt_IZR in Hneg. lia. }
    lra. }
  lia.
Qed.

Lemma castToInt_fin (r : R) :
  - 2 ^ 31 - 1 < r < 2 ^ 31 -> castToInt (Fin r) = Some (truncZ r).
Proof.
  intros [H1 H2]. unfold castToInt.
  destruct (Rlt_dec (- 2 ^ 31 - 1) r); [| contradiction].
  destruct (Rlt_dec r (2 ^ 31)); [reflexivity | contradiction].
Qed.

Lemma pow_2_31 : 2 ^ 31 = 2147483648.
Proof. lra. Qed.

Lemma inv_2_17 : / 2 ^ 17 = 1 / 131072.
Proof. lra. Qed.

Lemma gridRound_FloatRounding : FloatRounding gridRound.
Proof.
  split.
  - intros x y Hxy. unfold gridRound.
    assert (H : (Zfloor (x * 65536 + 1 / 2)
                 <= Zfloor (y * 65536 + 1 / 2))%Z)
      by (apply Zfloor_le; lra).
    apply IZR_le in H. lra.
  - intros n _. unfold gridRound.
    rewrite (Zfloor_eq (n * 65536)%Z).
    + rewrite mult_IZR. field.
    + rewrite mult_IZR. lra.
  - intros x _. unfold gridRound. rewrite inv_2_17.
    pose proof (Zfloor_bound (x * 65536 + 1 / 2)) as [H1 H2].
    apply Rabs_le. lra.
Qed.

(** The value of [gridRound] on a number within half a step of a grid
    point. *)
Lemma gridRound_near (x : R) (k : Z) :
  IZR k - 1 / 2 <= x * 65536 < IZR k + 1 / 2 ->
  gridRound x = IZR k / 65536.
Proof.
  intros H. unfold gridRound. rewrite (Zfloor_eq k); [reflexivity | lra].
Qed.

Lemma truncZ_IZR (n : Z) : truncZ (IZR n) = n.
Proof.
  destruct (Rle_dec 0 (IZR n)) as [Hn | Hn].
  - destruct (truncZ_nonneg (IZR n) Hn) as [[H1 H2] _].
    apply le_IZR in H1.
    assert (H3 : (n < truncZ (IZR n) + 1)%Z)
      by (apply lt_IZR; rewrite plus_IZR; exact H2).
    lia.
  - destruct (truncZ_neg (IZR n) ltac:(lra)) as [[H1 H2] _].
    apply le_IZR in H1.
    assert (H3 : (truncZ (IZR n) < n + 1)%Z)
      by (apply lt_IZR; rewrite plus_IZR; exact H2).
    lia.
Qed.

Section RoundTrips.
Variable rnd : R -> R.
Hypothesis Hrnd : FloatRounding rnd.

Lemma rnd_fixes (n : Z) : (Z.abs n <= 256)%Z -> rnd (IZR n) = IZR n.
Proof. apply (rnd_integer rnd Hrnd). Qed.

(** Rounding keeps a number between two integers it lies between. *)
Lemma rnd_between (lo hi : Z) (x : R) :
  (Z.abs lo <= 256)%Z -> (Z.abs hi <= 256)%Z ->
  IZR lo <= x <= IZR hi -> IZR lo <= rnd x <= IZR hi.
Proof.
  intros Hlo Hhi [H1 H2]. split.
  - apply Rle_trans with (rnd (IZR lo)).
    + rewrite rnd_fixes by assumption. apply Rle_refl.
    + apply (rnd_monotone rnd Hrnd), H1.
  - apply Rle_trans with (rnd (IZR hi)).
    + apply (rnd_monotone rnd Hrnd), H2.
    + rewrite rnd_fixes by assumption. apply Rle_refl.
Qed.

Lemma rnd_close (x : R) : Rabs x <= 256 -> Rabs (rnd x - x) <= 1 / 131072.
Proof.
  intros Hx. rewrite <- inv_2_17. apply (rnd_error rnd Hrnd), Hx.
Qed.

(** [(int)] moves a number by less than 1, toward zero. *)
Lemma truncZ_close (r : R) (lo hi : Z) :
  (lo <= 0 <= hi)%Z -> IZR lo <= r <= IZR hi ->
  (lo <= truncZ r <= hi)%Z /\ Rabs (IZR (truncZ r) - r) < 1.
Proof.
  intros [Hlo Hhi] [H1 H2].
  destruct (Rle_dec 0 r) as [Hr | Hr].
  - destruct (truncZ_nonneg r Hr) as [[T1 T2] T3].
    split; [split; [lia | apply le_IZR; lra] |].
    apply Rabs_def1; lra.
  - destruct (truncZ_neg r ltac:(lra)) as [[T1 T2] T3].
    split; [split; [apply le_IZR; lra | lia] |].
    apply Rabs_def1; lra.
Qed.

(** X22.  The percent display over the declared ranges (0 to 2 covers
    "output"), computed in single precision: the printed integer is
    between 0 and 200, and reading it back gives a value in [0, 2] within
    0.01001 of the original.  (The value read back can lie above the
    original: the product is rounded before [(int)] cuts it.) *)
Theorem percent_round_trip (v : R) :
  0 <= v <= 2 ->
  exists n back,
    percentDisplay rnd (Fin v) = Some n /\ (0 <= n <= 200)%Z
    /\ percentTextToValue rnd (Fin (IZR n)) = Fin back
    /\ 0 <= back <= 2
    /\ Rabs (back - v) < 1 / 100 + 1 / 100000.
Proof.
  intros [H0 H2]. unfold percentDisplay, percentTextToValue.
  cbn [fmul fround]. pose proof pow_2_31 as Hp.
  destruct (rnd_between 0 200 (v * 100)) as [Ra Rb]; [lia | lia | lra |].
  pose proof (rnd_close (v * 100) ltac:(apply Rabs_le; lra)) as Ea.
  set (a := rnd (v * 100)) in *.
  rewrite castToInt_fin by lra.
  destruct (truncZ_close a 0 200 ltac:(lia) ltac:(lra)) as [[N0 N1] En].
  set (n := truncZ a) in *.
  assert (N0R : 0 <= IZR n) by (apply IZR_le in N0; exact N0).
  assert (N1R : IZR n <= 200) by (apply IZR_le in N1; exact N1).
  destruct (rnd_between 0 2 (IZR n / 100)) as [Rc Rd]; [lia | lia | lra |].
  pose proof (rnd_close (IZR n / 100) ltac:(apply Rabs_le; lra)) as Eb.
  exists n, (rnd (IZR n / 100)).
  split; [reflexivity | split; [lia | split; [| split]]].
  - rewrite fdiv_fin by lra. reflexivity.
  - lra.
  - apply Rabs_def2 in En. apply Rabs_le_bounds in Ea.
    apply Rabs_le_bounds in Eb. apply Rabs_def1; lra.
Qed.

(** X23.  The flavor display over [0, 1], computed in single precision:
    the printed integer is between -100 and 100, and reading it back
    gives a value in [0, 1] within 0.00501 of the original. *)
Theorem flavor_round_trip (v : R) :
  0 <= v <= 1 ->
  exists n back,
    flavorDisplay rnd (Fin v) = Some n /\ (-100 <= n <= 100)%Z
    /\ flavorTextToValue rnd (Fin (IZR n)) = Fin back
    /\ 0 <= back <= 1
    /\ Rabs (back - v) < 1 / 200 + 1 / 100000.
Proof.
  intros [H0 H1]. unfold flavorDisplay, flavorTextToValue.
  cbn [fmul fsub fneg fadd fround]. pose proof pow_2_31 as Hp.
  destruct (rnd_between 0 200 (v * 200)) as [Ra Rb]; [lia | lia | lra |].
  pose proof (rnd_close (v * 200) ltac:(apply Rabs_le; lra)) as Ea.
  set (a := rnd (v * 200)) in *.
  destruct (rnd_between (-100) 100 (a + - (100)))
    as [Rc Rd]; [lia | lia | lra |].
  pose proof (rnd_close (a + - (100)) ltac:(apply Rabs_le; lra)) as Eb.
  set (b := rnd (a + - (100))) in *.
  rewrite castToInt_fin by lra.
  destruct (truncZ_close b (-100) 100 ltac:(lia) ltac:(lra))
    as [[N0 N1] En].
  set (n := truncZ b) in *.
  assert (N0R : -100 <= IZR n) by (apply IZR_le in N0; exact N0).
  assert (N1R : IZR n <= 100) by (apply IZR_le in N1; exact N1).
  destruct (rnd_between 0 1 ((IZR n + 100) / 200))
    as [Re Rf]; [lia | lia | lra |].
  pose proof (rnd_close ((IZR n + 100) / 200) ltac:(apply Rabs_le; lra))
    as Ec.
  exists n, (rnd ((IZR n + 100) / 200)).
  split; [reflexivity | split; [lia | split; [| split]]].
  - replace (IZR n + 100) with (IZR (n + 100)) by (rewrite plus_IZR; lra).
    rewrite rnd_fixes by lia. rewrite plus_IZR.
    rewrite fdiv_fin by lra. reflexivity.
  - lra.
  - apply Rabs_def2 in En. apply Rabs_le_bounds in Ea.
    apply Rabs_le_bounds in Eb. apply Rabs_le_bounds in Ec.
    apply Rabs_def1; lra.
Qed.
End RoundTrips.

Lemma truncZ_eq (r : R) (k : Z) :
  0 <= r -> IZR k <= r < IZR k + 1 -> truncZ r = k.
Proof.
  intros Hr [H1 H2].
  destruct (truncZ_nonneg r Hr) as [[T1 T2] _].
  assert (A : (k < truncZ r + 1)%Z)
    by (apply lt_IZR; rewrite plus_IZR; lra).
  assert (B : (truncZ r < k + 1)%Z)
    by (apply lt_IZR; rewrite plus_IZR; lra).
  lia.
Qed.

Lemma truncZ_eq_neg (r : R) (k : Z) :
  r < 0 -> IZR k - 1 < r <= IZR k -> truncZ r = k.
Proof.
  intros Hr [H1 H2].
  destruct (truncZ_neg r Hr) as [[T1 T2] _].
  assert (A : (k < truncZ r + 1)%Z)
    by (apply lt_IZR; rewrite plus_IZR; lra).
  assert (B : (truncZ r < k + 1)%Z)
    by (apply lt_IZR; rewrite plus_IZR; lra).
  lia.
Qed.

(** The [float] just below 0.09 (bits 3db851eb), with the grid rounding:
    its product with 100 is rounded to 9 before [(int)] cuts it, so 9 is
    printed, where the exact product would give 8. *)
Lemma percent_round_trip_witness :
  FloatRounding gridRound
  /\ 0 <= 12079595 / 134217728 <= 2
  /\ percentDisplay gridRound (Fin (12079595 / 134217728)) = Some 9%Z
  /\ truncZ (12079595 / 134217728 * 100) = 8%Z
  /\ exists n back,
       percentDisplay gridRound (Fin (12079595 / 134217728)) = Some n
       /\ (0 <= n <= 200)%Z
       /\ percentTextToValue gridRound (Fin (IZR n)) = Fin back
       /\ 0 <= back <= 2
       /\ Rabs (back - 12079595 / 134217728) < 1 / 100 + 1 / 100000.
Proof.
  assert (Hv : 0 <= 12079595 / 134217728 <= 2) by lra.
  split; [exact gridRound_FloatRounding | split; [exact Hv |]].
  split; [| split].
  - unfold percentDisplay. cbn [fmul fround].
    rewrite (gridRound_near _ 589824) by lra.
    replace (589824 / 65536) with 9 by lra.
    pose proof pow_2_31. rewrite castToInt_fin by lra.
    f_equal. apply (truncZ_IZR 9).
  - apply truncZ_eq; lra.
  - exact (percent_round_trip gridRound gridRound_FloatRounding
             (12079595 / 134217728) Hv).
Defined.

(** The [float] just above 0.005 (bits 3ba3d70b), with the grid rounding:
    [value * 200] is rounded to 1 and -99 is printed, where the exact
    difference would give -98. *)
Lemma flavor_round_trip_witness :
  FloatRounding gridRound
  /\ 0 <= 10737419 / 2147483648 <= 1
  /\ flavorDisplay gridRound (Fin (10737419 / 2147483648)) = Some (-99)%Z
  /\ truncZ (10737419 / 2147483648 * 200 - 100) = (-98)%Z
  /\ exists n back,
       flavorDisplay gridRound (Fin (10737419 / 2147483648)) = Some n
       /\ (-100 <= n <= 100)%Z
       /\ flavorTextToValue gridRound (Fin (IZR n)) = Fin back
       /\ 0 <= back <= 1
       /\ Rabs (back - 10737419 / 2147483648) < 1 / 200 + 1 / 100000.
Proof.
  assert (Hv : 0 <= 10737419 / 2147483648 <= 1) by lra.
  split; [exact gridRound_FloatRounding | split; [exact Hv |]].
  split; [| split].
  - unfold flavorDisplay. cbn [fmul fsub fneg fadd fround].
    rewrite (gridRound_near (10737419 / 2147483648 * 200) 65536) by lra.
    replace (65536 / 65536 + - (100)) with (IZR (-99)) by lra.
    rewrite (rnd_integer gridRound gridRound_FloatRounding (-99)) by lia.
    pose proof pow_2_31. rewrite castToInt_fin by lra.
    f_equal. apply (truncZ_IZR (-99)).
  - apply truncZ_eq_neg; lra.
  - exact (flavor_round_trip gridRound gridRound_FloatRounding
             (10737419 / 2147483648) Hv).
Defined.


(* ================================================================== *)
(** * Presets and the editor's buttons *)

Section EditorButtons.
Context {J : Juce} {IO : JuceIO}.

(** X25.  The Load button.  If the chosen file does not exist nothing
    happens.  If it exists, the preset label is set to the file's name,
    whether or not the preset was accepted: when the file does not parse
    or has a foreign root tag the processor is unchanged and the label
    changes all the same; when it is accepted the processor's preset name
    is the XML attribute, not the file name. *)
Theorem onLoadChosen_label (file : File) (ed : Editor) (p : Processor) :
  (file_existsAsFile file = false -> onLoadChosen file ed p = (ed, p))
  /\ (file_existsAsFile file = true ->
      presetNameLabel (fst (onLoadChosen file ed p))
        = file_getFileNameWithoutExtension file
      /\ snd (onLoadChosen file ed p) = loadPresetFromFile file p
      /\ (loadFails file p -> snd (onLoadChosen file ed p) = p)
      /\ (forall xml,
            xmlDocument_parse file = Some xml ->
            xml_hasTagName xml
              (valueTree_getType (apvts_state (parameters p))) = true ->
            currentPresetName (snd (onLoadChosen file ed p))
            = xml_getStringAttribute xml "presetName" "Unknown")).
Proof.
  unfold onLoadChosen. split; intros He; rewrite He; [reflexivity|].
  cbn [fst snd presetNameLabel].
  split; [reflexivity | split; [reflexivity | split]].
  - intros [Hmissing | [Hparse | [xml [Hparse Htag]]]];
      unfold loadPresetFromFile; rewrite He; cbn [negb].
    + congruence.
    + now rewrite Hparse.
    + now rewrite Hparse, Htag.
  - intros xml Hparse Htag.
    apply (loadPresetFromFile_success file p xml He Hparse Htag).
Qed.

(** X26.  The Save button.  With an empty path nothing happens.
    Otherwise the preset label is set to the file's name; the file is
    written only if it has the extension ".preset" (and the state has an
    XML form), and then with the attribute "presetName" set to the
    processor's preset name.  A file with another extension is left as it
    was, though the label already shows its name. *)
Theorem onSaveChosen_label (file : File) (ed : Editor) (p : Processor) :
  (file_getFullPathName file = EmptyString ->
   onSaveChosen file ed p = (ed, file))
  /\ (file_getFullPathName file <> EmptyString ->
      presetNameLabel (fst (onSaveChosen file ed p))
        = file_getFileNameWithoutExtension file
      /\ (file_hasFileExtension file ".preset" = false ->
          snd (onSaveChosen file ed p) = file)
      /\ (forall xml,
            file_hasFileExtension file ".preset" = true ->
            valueTree_createXml (apvts_copyState (parameters p)) = Some xml ->
            snd (onSaveChosen file ed p)
            = xml_writeTo
                (xml_setAttribute "presetName" (currentPresetName p) xml)
                file)).
Proof.
  unfold onSaveChosen. split.
  - intros ->. reflexivity.
  - intros Hne.
    destruct (file_getFullPathName file) as [| ch rest]; [congruence|].
    cbn [isNotEmpty fst snd presetNameLabel].
    split; [reflexivity | split].
    + intros Hext. unfold savePresetToFile. now rewrite Hext.
    + intros xml Hext Hxml. unfold savePresetToFile.
      now rewrite Hext, Hxml.
Qed.
End EditorButtons.

Lemma onLoadChosen_label_witness :
  file_existsAsFile (Juce := wireJuce) (Some None) = true
  /\ presetNameLabel
       (fst (onLoadChosen (IO := wireJuceIO) (Some None)
               {| presetNameLabel := "Default" |} wireProcessor))
     = "lead"%string
  /\ snd (onLoadChosen (IO := wireJuceIO) (Some None)
            {| presetNameLabel := "Default" |} wireProcessor)
     = wireProcessor.
Proof.
  pose proof (proj2 (onLoadChosen_label (IO := wireJuceIO) (Some None)
                       {| presetNameLabel := "Default" |} wireProcessor)
                eq_refl) as (Hlabel & _ & Hfail & _).
  split; [reflexivity | split; [exact Hlabel |]].
  apply Hfail. right. left. reflexivity.
Defined.

Lemma onSaveChosen_label_witness :
  file_getFullPathName (JuceIO := wireJuceIO) None <> EmptyString
  /\ presetNameLabel
       (fst (onSaveChosen (IO := wireJuceIO) None
               {| presetNameLabel := "Default" |} wireProcessor))
     = "lead"%string
  /\ snd (onSaveChosen (IO := wireJuceIO) None
            {| presetNameLabel := "Default" |} wireProcessor)
     = Some (Some "DREKAVAC_PARAMETERS"%string).
Proof.
  assert (Hne : file_getFullPathName (JuceIO := wireJuceIO) None
                <> EmptyString) by discriminate.
  pose proof (proj2 (onSaveChosen_label (IO := wireJuceIO) None
                       {| presetNameLabel := "Default" |} wireProcessor)
                Hne) as (Hlabel & _ & Hwrite).
  split; [exact Hne | split; [exact Hlabel |]].
  apply (Hwrite "DREKAVAC_PARAMETERS"%string); reflexivity.
Defined.

(* ================================================================== *)
(** * Bus layouts *)

(** X27.  In the effect build (neither MIDI effect nor synth) a layout is
    supported exactly when the main output is mono or stereo and the main
    input has the same channel set; a synth build drops the input
    condition; a MIDI-effect build accepts everything. *)
Theorem isBusesLayoutSupported_spec (ChannelSet : Type)
    (eqb : ChannelSet -> ChannelSet -> bool) (mono stereo : ChannelSet)
    (mainInput mainOutput : ChannelSet) :
  (forall a b, eqb a b = true <-> a = b) ->
  (isBusesLayoutSupported ChannelSet eqb mono stereo false false
     mainInput mainOutput = true
   <-> (mainOutput = mono \/ mainOutput = stereo)
       /\ mainInput = mainOutput)
  /\ (isBusesLayoutSupported ChannelSet eqb mono stereo false true
        mainInput mainOutput = true
      <-> (mainOutput = mono \/ mainOutput = stereo))
  /\ isBusesLayoutSupported ChannelSet eqb mono stereo true false
       mainInput mainOutput = true.
Proof.
  intros Heqb. unfold isBusesLayoutSupported.
  assert (Hf : forall a b, eqb a b = false <-> a <> b).
  { intros a b. split.
    - intros H E. apply Heqb in E. congruence.
    - intros H. destruct (eqb a b) eqn:E; [| reflexivity].
      apply Heqb in E. contradiction. }
  assert (Hcase : forall a b, {a = b /\ eqb a b = true}
                              + {a <> b /\ eqb a b = false}).
  { intros a b. destruct (eqb a b) eqn:E.
    - left. split; [now apply Heqb | reflexivity].
    - right. split; [now apply Hf | reflexivity]. }
  split; [| split; [| reflexivity]].
  - destruct (Hcase mainOutput mono) as [[E1 ->] | [E1 ->]];
      destruct (Hcase mainOutput stereo) as [[E2 ->] | [E2 ->]];
      destruct (Hcase mainOutput mainInput) as [[E3 ->] | [E3 ->]];
      cbn; split; intros H;
      try discriminate; try reflexivity;
      try (split; [tauto | congruence]);
      destruct H as [[H | H] H']; congruence.
  - destruct (Hcase mainOutput mono) as [[E1 ->] | [E1 ->]];
      destruct (Hcase mainOutput stereo) as [[E2 ->] | [E2 ->]];
      cbn; split; intros H;
      try discriminate; try reflexivity; tauto.
Qed.

Lemma isBusesLayoutSupported_spec_witness :
  (forall a b : nat, Nat.eqb a b = true <-> a = b)
  /\ (isBusesLayoutSupported nat Nat.eqb 1%nat 2%nat false false 2%nat 2%nat
      = true
      <-> (2 = 1 \/ 2 = 2)%nat /\ (2 = 2)%nat).
Proof.
  split; [exact Nat.eqb_eq|].
  exact (proj1 (isBusesLayoutSupported_spec nat Nat.eqb 1%nat 2%nat
                  2%nat 2%nat Nat.eqb_eq)).
Defined.

(* ================================================================== *)
(** * The editor's layout *)

Lemma parity_half (i : nat) :
  (Nat.even i = true /\ i = 2 * (i / 2))%nat
  \/ (Nat.even i = false /\ i = 2 * (i / 2) + 1)%nat.
Proof.
  pose proof (Nat.div2_odd i) as H. rewrite Nat.div2_div in H.
  rewrite <- Nat.negb_even in H.
  destruct (Nat.even i); cbn [Nat.b2n negb] in H; [left | right]; split;
    try reflexivity; lia.
Qed.

Lemma half_succ_even (i : nat) :
  Nat.even i = true ->
  ((i + 1) / 2 = i / 2 /\ S i / 2 = i / 2 /\ (S i + 1) / 2 = i / 2 + 1)%nat.
Proof.
  intros E. destruct (parity_half i) as [[_ H] | [E' _]]; [| congruence].
  set (m := (i / 2)%nat) in *. clearbody m. subst i.
  repeat split.
  - symmetry. apply (Nat.div_unique (2 * m + 1) 2 m 1); lia.
  - symmetry. apply (Nat.div_unique (S (2 * m)) 2 m 1); lia.
  - symmetry. apply (Nat.div_unique (S (2 * m) + 1) 2 (m + 1) 0); lia.
Qed.

Lemma half_succ_odd (i : nat) :
  Nat.even i = false ->
  ((i + 1) / 2 = i / 2 + 1 /\ S i / 2 = i / 2 + 1
   /\ (S i + 1) / 2 = i / 2 + 1)%nat.
Proof.
  intros E. destruct (parity_half i) as [[E' _] | [_ H]]; [congruence|].
  set (m := (i / 2)%nat) in *. clearbody m. subst i.
  repeat split.
  - symmetry. apply (Nat.div_unique (2 * m + 1 + 1) 2 (m + 1) 0); lia.
  - symmetry. apply (Nat.div_unique (S (2 * m + 1)) 2 (m + 1) 0); lia.
  - symmetry. apply (Nat.div_unique (S (2 * m + 1) + 1) 2 (m + 1) 1); lia.
Qed.

Lemma layoutSliders_closed (width : Z) : forall count i,
  layoutSliders count i width
    (150 + 75 * Z.of_nat ((i + 1) / 2))%Z (150 + 75 * Z.of_nat (i / 2))%Z
  = map (sliderSlot width) (seq i count).
Proof.
  induction count as [| count IH]; intros i; [reflexivity|].
  cbn [layoutSliders seq map]. cbv zeta.
  specialize (IH (S i)).
  unfold sliderSlot at 1. unfold margin, labelHeight, sliderHeight, spacing.
  destruct (Nat.even i) eqn:E.
  - destruct (half_succ_even i E) as (H1 & H2 & H3).
    rewrite H2, H3 in IH. rewrite H1.
    f_equal. rewrite <- IH. f_equal. lia.
  - destruct (half_succ_odd i E) as (H1 & H2 & H3).
    rewrite H2, H3 in IH. rewrite H1.
    f_equal. rewrite <- IH. f_equal; lia.
Qed.

Lemma nth_error_map_seq {A : Type} (f : nat -> A) : forall count start i,
  (i < count)%nat ->
  nth_error (map f (seq start count)) i = Some (f (start + i)%nat).
Proof.
  induction count as [| count IH]; intros start i Hi; [lia|].
  destruct i as [| i']; simpl.
  - now rewrite Nat.add_0_r.
  - rewrite IH by lia. f_equal. f_equal. lia.
Qed.

Lemma sliderBounds_nth (n : nat) (width height : Z) (i : nat) :
  (i < n)%nat ->
  nth_error (sliderBounds (resized n width height)) i
  = Some (sliderSlot width i).
Proof.
  intros Hi. cbn [resized sliderBounds].
  change (layoutSliders n 0 width 150 150)
    with (layoutSliders n 0 width
            (150 + 75 * Z.of_nat ((0 + 1) / 2))%Z
            (150 + 75 * Z.of_nat (0 / 2))%Z).
  rewrite layoutSliders_closed. now rewrite nth_error_map_seq.
Qed.

(** X28.  [resized] lays the controls out on a grid of two columns:
    control [i] goes to the left column (x = 20) when [i] is even and to
    the right column (x = 40 + column width) when odd, in row [i / 2],
    rows 75 pixels apart from y = 150, the label 20 high with the slider,
    40 high, directly under it, both one column wide. *)
Theorem resized_slider_grid (n : nat) (width height : Z) (i : nat) :
  (i < n)%nat ->
  exists label slider,
    nth_error (sliderBounds (resized n width height)) i
    = Some (label, slider)
    /\ rect_x label
       = (if Nat.even i then 20 else 40 + columnWidth width)%Z
    /\ rect_y label = (150 + 75 * Z.of_nat (i / 2))%Z
    /\ rect_w label = columnWidth width
    /\ rect_h label = 20%Z
    /\ rect_x slider = rect_x label
    /\ rect_y slider = (rect_y label + 20)%Z
    /\ rect_w slider = columnWidth width
    /\ rect_h slider = 40%Z.
Proof.
  intros Hi.
  exists (fst (sliderSlot width i)), (snd (sliderSlot width i)).
  split.
  - rewrite sliderBounds_nth by assumption.
    now destruct (sliderSlot width i).
  - unfold sliderSlot. cbv zeta. cbn [fst snd rect_x rect_y rect_w rect_h].
    repeat split; reflexivity.
Qed.

Lemma resized_slider_grid_witness :
  (5 < 8)%nat
  /\ exists label slider,
       nth_error (sliderBounds (resized 8 400 600)) 5 = Some (label, slider)
       /\ rect_x label = (if Nat.even 5 then 20 else 40 + columnWidth 400)%Z
       /\ rect_y label = (150 + 75 * Z.of_nat (5 / 2))%Z
       /\ rect_w label = columnWidth 400
       /\ rect_h label = 20%Z
       /\ rect_x slider = rect_x label
       /\ rect_y slider = (rect_y label + 20)%Z
       /\ rect_w slider = columnWidth 400
       /\ rect_h slider = 40%Z.
Proof.
  assert (H : (5 < 8)%nat) by lia.
  exact (conj H (resized_slider_grid 8 400 600 5 H)).
Defined.

Lemma layoutSliders_length (width : Z) : forall count i yLeft yRight,
  List.length (layoutSliders count i width yLeft yRight) = count.
Proof.
  induction count as [| count IH]; intros i yLeft yRight; [reflexivity|].
  cbn [layoutSliders]. cbv zeta. cbn [List.length]. now rewrite IH.
Qed.

Lemma columnWidth_bounds (width : Z) :
  (60 <= width)%Z ->
  (0 <= columnWidth width /\ 2 * columnWidth width <= width - 60)%Z.
Proof.
  intros Hw. unfold columnWidth, margin.
  rewrite Z.quot_div_nonneg by lia.
  pose proof (Z.div_mod (width - 3 * 20) 2 ltac:(lia)) as Hdm.
  pose proof (Z.mod_pos_bound (width - 3 * 20) 2 ltac:(lia)) as Hm.
  split; [apply Z.div_pos; lia | lia].
Qed.

(** X29.  In a window at least 60 wide no two of the rectangles given to
    the controls overlap: a control's label sits on top of its slider,
    and labels and sliders of different controls are disjoint; every
    control keeps the 20 pixel margin on both sides; and the first eight
    controls end at y = 435 at the latest. *)
Theorem resized_controls_do_not_overlap (n : nat) (width height : Z)
    (i j : nat) (li si lj sj : Rect) :
  (60 <= width)%Z -> i <> j ->
  nth_error (sliderBounds (resized n width height)) i = Some (li, si) ->
  nth_error (sliderBounds (resized n width height)) j = Some (lj, sj) ->
  disjoint li si /\ disjoint li lj /\ disjoint li sj
  /\ disjoint si lj /\ disjoint si sj
  /\ (20 <= rect_x li /\ rect_x li + rect_w li <= width - 20)%Z
  /\ (20 <= rect_x si /\ rect_x si + rect_w si <= width - 20)%Z
  /\ ((i < 8)%nat -> (rect_y si + rect_h si <= 435)%Z).
Proof.
  intros Hw Hij Hi Hj.
  assert (Hlen : List.length (sliderBounds (resized n width height)) = n)
    by apply layoutSliders_length.
  assert (Hin : (i < n)%nat).
  { rewrite <- Hlen. apply nth_error_Some. rewrite Hi. discriminate. }
  assert (Hjn : (j < n)%nat).
  { rewrite <- Hlen. apply nth_error_Some. rewrite Hj. discriminate. }
  rewrite sliderBounds_nth in Hi, Hj by assumption.
  assert (Hpi : sliderSlot width i = (li, si)) by congruence.
  assert (Hpj : sliderSlot width j = (lj, sj)) by congruence.
  pose proof (f_equal fst Hpi) as Hli. pose proof (f_equal snd Hpi) as Hsi.
  pose proof (f_equal fst Hpj) as Hlj. pose proof (f_equal snd Hpj) as Hsj.
  cbn [fst snd] in Hli, Hsi, Hlj, Hsj. subst li si lj sj.
  clear Hi Hj Hpi Hpj.
  destruct (columnWidth_bounds width Hw) as [Hc0 Hc1].
  unfold disjoint, sliderSlot. cbv zeta.
  cbn [fst snd rect_x rect_y rect_w rect_h].
  destruct (parity_half i) as [[Ei Hi2] | [Ei Hi2]];
    destruct (parity_half j) as [[Ej Hj2] | [Ej Hj2]];
    rewrite Ei, Ej;
    set (a := (i / 2)%nat) in *; set (b := (j / 2)%nat) in *;
    clearbody a b;
    repeat split; try lia.
Qed.

Lemma resized_controls_do_not_overlap_witness :
  (60 <= 400)%Z /\ 2%nat <> 3%nat
  /\ disjoint (fst (sliderSlot 400 2)) (snd (sliderSlot 400 2))
  /\ disjoint (fst (sliderSlot 400 2)) (fst (sliderSlot 400 3))
  /\ disjoint (fst (sliderSlot 400 2)) (snd (sliderSlot 400 3))
  /\ disjoint (snd (sliderSlot 400 2)) (fst (sliderSlot 400 3))
  /\ disjoint (snd (sliderSlot 400 2)) (snd (sliderSlot 400 3))
  /\ (20 <= rect_x (fst (sliderSlot 400 2))
      /\ rect_x (fst (sliderSlot 400 2)) + rect_w (fst (sliderSlot 400 2))
         <= 400 - 20)%Z
  /\ (20 <= rect_x (snd (sliderSlot 400 2))
      /\ rect_x (snd (sliderSlot 400 2)) + rect_w (snd (sliderSlot 400 2))
         <= 400 - 20)%Z
  /\ ((2 < 8)%nat
      -> (rect_y (snd (sliderSlot 400 2)) + rect_h (snd (sliderSlot 400 2))
          <= 435)%Z).
Proof.
  split; [lia | split; [lia |]].
  apply (resized_controls_do_not_overlap 8 400 600 2 3
           (fst (sliderSlot 400 2)) (snd (sliderSlot 400 2))
           (fst (sliderSlot 400 3)) (snd (sliderSlot 400 3)));
    [lia | lia | reflexivity | reflexivity].
Defined.
